(** * BMP image processing: codec and transforms of [main.cpp]

    A shallow embedding of [read_image], [write_image] and the transforms
    [process_2] ... [process_10] of the BMP image processing application.

    - C++ [int] is a 32-bit two's complement integer; its arithmetic is
      modelled as [Z] followed by [wrap32] (the wrap-around the compiled code
      performs; the C++ standard leaves signed overflow undefined).
    - [vector<T>(n)] with [n] an [int] converts [n] to [size_t]; a negative
      [n] becomes a size above [max_size()] and the constructor throws
      [std::length_error].  Such a construction yields [None]: every
      function that allocates returns [option], [None] being the escaped
      exception (a hard fault of the program).
    - [fstream] is modelled as a byte list with a read position and a fail
      flag: reading past the end sets the flag, and a stream whose flag is
      set ignores [seekg] and returns [EOF] (-1) from [get].
    - [double] is binary64, the kernel's primitive floats; a conversion of
      a [double] to [int] whose value is out of range is undefined and
      yields [None]. *)

From Stdlib Require Import ZArith Lia List Strings.Byte.
From stdpp Require Import base list option.
From Corelib Require PrimFloat SpecFloat FloatOps Uint63Axioms.
Import ListNotations.

Open Scope Z_scope.

(** ** Machine integers *)

(** Reduction of a mathematical integer into the range of a 32-bit [int]. *)
Definition wrap32 (z : Z) : Z := (z + 2 ^ 31) mod 2 ^ 32 - 2 ^ 31.

(** [(unsigned char) v]: the byte [v mod 256]. *)
Definition to_byte (z : Z) : Byte.byte :=
  match Byte.of_N (Z.to_N (z mod 256)) with
  | Some b => b
  | None => Byte.x00
  end.

(** The value [stream.get()] returns for a byte of the file. *)
Definition byte_val (b : Byte.byte) : Z := Z.of_N (Byte.to_N b).

(** Converting [double d] with [d = q + 0.5] (q an integer) back to an
    integer truncates toward zero. *)
Definition trunc_plus_half (q : Z) : Z := if 0 <=? q then q else q + 1.

(** ** Pixels and images *)

Record Pixel := mkPixel { red : Z; green : Z; blue : Z }.

(** A value-initialised [Pixel] ([vector<Pixel>(n)]) has all fields 0. *)
Definition default_pixel : Pixel := mkPixel 0 0 0.

#[global] Instance Pixel_inhabited : Inhabited Pixel := populate default_pixel.

(** [vector<vector<Pixel> >] *)
Abbreviation grid := (list (list Pixel)).

(** [vector<T> v(n, x)] *)
Definition new_vector {A} (n : Z) (x : A) : option (list A) :=
  if n <? 0 then None else Some (replicate (Z.to_nat n) x).

(** [image[i][j] = p] *)
Definition set2 (image : grid) (i j : Z) (p : Pixel) : grid :=
  alter (fun row => <[Z.to_nat j := p]> row) (Z.to_nat i) image.

(** [image[i][j]] *)
Definition get2 (image : grid) (i j : Z) : Pixel :=
  (image !!! Z.to_nat i) !!! Z.to_nat j.

(** [for (int k = 0; k < n; k++) body] *)
Definition loop {A} (n : Z) (body : Z -> A -> A) (a : A) : A :=
  fold_left (fun acc k => body (Z.of_nat k) acc) (seq 0 (Z.to_nat n)) a.

(** [for (int k = n - 1; k >= 0; k--) body] *)
Definition loop_down {A} (n : Z) (body : Z -> A -> A) (a : A) : A :=
  fold_left (fun acc k => body (Z.of_nat k) acc) (rev (seq 0 (Z.to_nat n))) a.

(** ** Input file streams *)

Record stream := mkStream { sbytes : list Byte.byte; spos : Z; sfail : bool }.

(** [stream.open(filename, ios::in | ios::binary)] on a file with these bytes. *)
Definition open_stream (file : list Byte.byte) : stream := mkStream file 0 false.

(** [stream.seekg(p)] *)
Definition seekg (p : Z) (s : stream) : stream :=
  if sfail s then s
  else if p <? 0 then mkStream (sbytes s) (spos s) true
  else mkStream (sbytes s) p false.

(** [stream.seekg(d, ios::cur)] *)
Definition seekg_cur (d : Z) (s : stream) : stream := seekg (spos s + d) s.

(** [stream.get()] *)
Definition get (s : stream) : Z * stream :=
  if sfail s then (-1, s)
  else match sbytes s !! Z.to_nat (spos s) with
       | Some b => (byte_val b, mkStream (sbytes s) (spos s + 1) false)
       | None => (-1, mkStream (sbytes s) (spos s) true)
       end.

(** [get_int(stream, offset, bytes)] *)
Definition get_int (s : stream) (offset bytes : Z) : Z * stream :=
  let '(result, _, s') :=
    loop bytes
      (fun _ '(result, base, s) =>
         let '(c, s1) := get s in
         (wrap32 (result + wrap32 (c * base)), wrap32 (base * 256), s1))
      (0, 1, seekg offset s) in
  (result, s').

(** ** [read_image] *)

(** One pixel of the inner loop: seek, read blue, green, red, advance. *)
Definition read_pixel (bits_per_pixel i j : Z) (st : stream * Z * grid)
  : stream * Z * grid :=
  let '(s, pos, image) := st in
  let s := seekg pos s in
  let '(b, s) := get s in
  let '(g, s) := get s in
  let '(r, s) := get s in
  (s, wrap32 (pos + Z.quot bits_per_pixel 8), set2 image i j (mkPixel r g b)).

(** One row of the outer loop: [width] pixels, then the padding is skipped. *)
Definition read_row (width bits_per_pixel padding i : Z) (st : stream * Z * grid)
  : stream * Z * grid :=
  let '(s, pos, image) := loop width (read_pixel bits_per_pixel i) st in
  (seekg_cur padding s, wrap32 (pos + padding), image).

(** Row padding as [read_image] computes it. *)
Definition read_padding (scanline_size : Z) : Z :=
  if negb (Z.rem scanline_size 4 =? 0) then wrap32 (4 - Z.rem scanline_size 4) else 0.

(** [read_image]: [Some []] is the empty vector returned on an invalid
    image, [None] an exception escaping the allocation. *)
Definition read_image (file : list Byte.byte) : option grid :=
  let s := open_stream file in
  let '(file_size, s) := get_int s 2 4 in
  let '(start, s) := get_int s 10 4 in
  let '(width, s) := get_int s 18 4 in
  let '(height, s) := get_int s 22 4 in
  let '(bits_per_pixel, s) := get_int s 28 2 in
  let scanline_size := wrap32 (width * Z.quot bits_per_pixel 8) in
  let padding := read_padding scanline_size in
  if negb (file_size =? wrap32 (start + wrap32 (wrap32 (scanline_size + padding) * height)))
  then Some []
  else
    row ← new_vector width default_pixel;
    image ← new_vector height row;
    let '(_, _, image) :=
      loop_down height (read_row width bits_per_pixel padding) (s, start, image) in
    Some image.

(** ** [write_image] *)

(** [set_bytes(arr, offset, bytes, value)] *)
Definition set_bytes (arr : list Byte.byte) (offset bytes value : Z) : list Byte.byte :=
  loop bytes (fun i arr =>
    <[Z.to_nat (offset + i) := to_byte (Z.shiftr value (i * 8))]> arr) arr.

(** Row padding as [write_image] computes it. *)
Definition write_padding (width_bytes : Z) : Z := Z.rem (4 - Z.rem width_bytes 4) 4.

(** The 14-byte BMP header and the 40-byte DIB header. *)
Definition bmp_header (array_bytes : Z) : list Byte.byte :=
  let h := replicate 14 Byte.x00 in
  let h := set_bytes h 0 1 66 in
  let h := set_bytes h 1 1 77 in
  let h := set_bytes h 2 4 (wrap32 (14 + 40 + array_bytes)) in
  let h := set_bytes h 6 2 0 in
  let h := set_bytes h 8 2 0 in
  set_bytes h 10 4 (14 + 40).

Definition dib_header (width_pixels height_pixels array_bytes : Z) : list Byte.byte :=
  let h := replicate 40 Byte.x00 in
  let h := set_bytes h 0 4 40 in
  let h := set_bytes h 4 4 width_pixels in
  let h := set_bytes h 8 4 height_pixels in
  let h := set_bytes h 12 2 1 in
  let h := set_bytes h 14 2 24 in
  let h := set_bytes h 16 4 0 in
  let h := set_bytes h 20 4 array_bytes in
  let h := set_bytes h 24 4 2835 in
  let h := set_bytes h 28 4 2835 in
  let h := set_bytes h 32 4 0 in
  set_bytes h 36 4 0.

(** [stream.write(pixel, 3)] for one pixel. *)
Definition pixel_bytes (p : Pixel) : list Byte.byte :=
  [to_byte (blue p); to_byte (green p); to_byte (red p)].

(** The pixel array: rows from the last to the first, each followed by
    [padding_bytes] zero bytes. *)
Definition pixel_array (image : grid) (width_pixels height_pixels padding_bytes : Z)
  : list Byte.byte :=
  loop_down height_pixels (fun h out =>
    let out := loop width_pixels (fun w out =>
                 out ++ pixel_bytes (get2 image h w)) out in
    out ++ replicate (Z.to_nat padding_bytes) Byte.x00) [].

(** [write_image]: the bytes written to a file that opened successfully. *)
Definition write_image (image : grid) : list Byte.byte :=
  let width_pixels := wrap32 (Z.of_nat (length (image !!! 0%nat))) in
  let height_pixels := wrap32 (Z.of_nat (length image)) in
  let width_bytes := wrap32 (width_pixels * 3) in
  let padding_bytes := write_padding width_bytes in
  let width_bytes := wrap32 (width_bytes + padding_bytes) in
  let array_bytes := wrap32 (width_bytes * height_pixels) in
  bmp_header array_bytes ++ dib_header width_pixels height_pixels array_bytes
  ++ pixel_array image width_pixels height_pixels padding_bytes.

(** ** Transforms *)

(** The shared skeleton of the transforms that keep the image size: a new
    image of the same size, each pixel computed from the pixel at the same
    position ([process_1] ... [process_3], [process_7] ... [process_10]). *)
Definition pixelwise (f : Pixel -> Pixel) (image : grid) : option grid :=
  let width_pixels := wrap32 (Z.of_nat (length (image !!! 0%nat))) in
  let height_pixels := wrap32 (Z.of_nat (length image)) in
  row ← new_vector width_pixels default_pixel;
  new_image ← new_vector height_pixels row;
  Some (loop height_pixels (fun row img =>
          loop width_pixels (fun col img =>
            set2 img row col (f (get2 image row col))) img) new_image).

(** [red + green + blue] on [int]s. *)
Definition channel_sum (p : Pixel) : Z := wrap32 (wrap32 (red p + green p) + blue p).

(** Per-pixel body of [process_3] (grayscale):
    [int gray_value = ((red + green + blue)/3) + 0.5;] *)
Definition gray_pixel (p : Pixel) : Pixel :=
  let gray_value := trunc_plus_half (Z.quot (channel_sum p) 3) in
  mkPixel gray_value gray_value gray_value.

Definition process_3 (image : grid) : option grid := pixelwise gray_pixel image.

(** Per-pixel body of [process_7] (high contrast). *)
Definition contrast_pixel (p : Pixel) : Pixel :=
  let gray_value := Z.quot (channel_sum p) 3 in
  if Z.quot 255 2 <=? gray_value then mkPixel 255 255 255 else mkPixel 0 0 0.

Definition process_7 (image : grid) : option grid := pixelwise contrast_pixel image.

(** Per-pixel body of [process_10] (five colours). *)
Definition posterize_pixel (p : Pixel) : Pixel :=
  let max_color := Z.max (Z.max (red p) (green p)) (blue p) in
  if 550 <=? channel_sum p then mkPixel 255 255 255
  else if channel_sum p <=? 150 then mkPixel 0 0 0
  else if max_color =? red p then mkPixel 255 0 0
  else if max_color =? green p then mkPixel 0 255 0
  else mkPixel 0 0 255.

Definition process_10 (image : grid) : option grid := pixelwise posterize_pixel image.

(** [process_4]: rotation by 90 degrees clockwise. *)
Definition process_4 (image : grid) : option grid :=
  let width_pixels := wrap32 (Z.of_nat (length (image !!! 0%nat))) in
  let height_pixels := wrap32 (Z.of_nat (length image)) in
  row ← new_vector height_pixels default_pixel;
  new_image ← new_vector width_pixels row;
  Some (loop height_pixels (fun row img =>
          loop width_pixels (fun col img =>
            set2 img col (wrap32 (wrap32 (height_pixels - 1) - row))
                 (get2 image row col)) img) new_image).

(** [process_5]: rotation by [number] quarter turns.  The diagnostic printed
    on the first branch is not modelled. *)
Definition process_5 (image : grid) (number : Z) : option grid :=
  let angle := wrap32 (number * 90) in
  if negb (Z.rem angle 90 =? 0) then Some image
  else if Z.rem angle 360 =? 0 then Some image
  else if Z.rem angle 360 =? 90 then process_4 image
  else if Z.rem angle 360 =? 180 then
    img ← process_4 image; process_4 img
  else
    img ← process_4 image; img ← process_4 img; process_4 img.

(** [process_6]: enlargement; the source index [(row/y_scale)+0.5] is a
    [double] converted to an index by truncation. *)
Definition process_6 (image : grid) (x_scale y_scale : Z) : option grid :=
  let width_pixels := wrap32 (Z.of_nat (length (image !!! 0%nat))) in
  let height_pixels := wrap32 (Z.of_nat (length image)) in
  let new_height := wrap32 (height_pixels * y_scale) in
  let new_width := wrap32 (width_pixels * x_scale) in
  row ← new_vector new_width default_pixel;
  new_image ← new_vector new_height row;
  Some (loop new_height (fun row img =>
          loop new_width (fun col img =>
            set2 img row col
              (get2 image (trunc_plus_half (Z.quot row y_scale))
                          (trunc_plus_half (Z.quot col x_scale)))) img) new_image).

(** ** Transforms with a [double] scaling factor *)

(** A [double] is an IEEE 754 binary64 number, [PrimFloat.float]; the
    arithmetic below is the kernel's primitive binary64 arithmetic
    (round to nearest even), the arithmetic of the compiled code. *)

(** [(double) z] for an [int] [z] (exact). *)
Definition int_to_double (z : Z) : PrimFloat.float :=
  if z <? 0 then PrimFloat.opp (PrimFloat.of_uint63 (Uint63Axioms.of_Z (- z)))
  else PrimFloat.of_uint63 (Uint63Axioms.of_Z z).

(** [int x = d;]: truncation toward zero.  The conversion is undefined when
    the truncated value is not an [int] (and for infinities and NaN); it
    yields [None] then. *)
Definition double_to_int (d : PrimFloat.float) : option Z :=
  match FloatOps.Prim2SF d with
  | SpecFloat.S754_zero _ => Some 0
  | SpecFloat.S754_finite s m e =>
      let t := if 0 <=? e then Z.pos m * 2 ^ e else Z.pos m / 2 ^ (- e) in
      let v := if s then - t else t in
      if (- 2 ^ 31 <=? v) && (v <? 2 ^ 31) then Some v else None
  | _ => None
  end.

(** The per-pixel transforms may reach an undefined conversion, so the
    skeleton threads an [option]: [None] when some pixel has no defined
    result (or the allocation throws). *)
Definition pixelwise_opt (f : Pixel -> option Pixel) (image : grid) : option grid :=
  let width_pixels := wrap32 (Z.of_nat (length (image !!! 0%nat))) in
  let height_pixels := wrap32 (Z.of_nat (length image)) in
  row ← new_vector width_pixels default_pixel;
  new_image ← new_vector height_pixels row;
  loop height_pixels (fun row oimg =>
    loop width_pixels (fun col oimg =>
      img ← oimg;
      p ← f (get2 image row col);
      Some (set2 img row col p)) oimg) (Some new_image).

(** [new = 255 - (255 - c) * scaling_factor;] *)
Definition lighten_channel (scaling_factor : PrimFloat.float) (c : Z) : option Z :=
  double_to_int (PrimFloat.sub (int_to_double 255)
                   (PrimFloat.mul (int_to_double (wrap32 (255 - c))) scaling_factor)).

(** [new = c * scaling_factor;] *)
Definition darken_channel (scaling_factor : PrimFloat.float) (c : Z) : option Z :=
  double_to_int (PrimFloat.mul (int_to_double c) scaling_factor).

Definition lighten_pixel (scaling_factor : PrimFloat.float) (p : Pixel) : option Pixel :=
  new_red ← lighten_channel scaling_factor (red p);
  new_green ← lighten_channel scaling_factor (green p);
  new_blue ← lighten_channel scaling_factor (blue p);
  Some (mkPixel new_red new_green new_blue).

Definition darken_pixel (scaling_factor : PrimFloat.float) (p : Pixel) : option Pixel :=
  new_red ← darken_channel scaling_factor (red p);
  new_green ← darken_channel scaling_factor (green p);
  new_blue ← darken_channel scaling_factor (blue p);
  Some (mkPixel new_red new_green new_blue).

(** Per-pixel body of [process_2] (Clarendon).  [average_value] is a
    [double] holding the [int] quotient [(red + green + blue)/3]; its
    comparisons with 170 and 90 are exact, so they are made on [Z]. *)
Definition clarendon_pixel (scaling_factor : PrimFloat.float) (p : Pixel) : option Pixel :=
  let average_value := Z.quot (channel_sum p) 3 in
  if 170 <=? average_value then lighten_pixel scaling_factor p
  else if average_value <? 90 then darken_pixel scaling_factor p
  else Some (mkPixel (red p) (green p) (blue p)).

Definition process_2 (image : grid) (scaling_factor : PrimFloat.float) : option grid :=
  pixelwise_opt (clarendon_pixel scaling_factor) image.

Definition process_8 (image : grid) (scaling_factor : PrimFloat.float) : option grid :=
  pixelwise_opt (lighten_pixel scaling_factor) image.

Definition process_9 (image : grid) (scaling_factor : PrimFloat.float) : option grid :=
  pixelwise_opt (darken_pixel scaling_factor) image.

(** ** Well-formed images *)

(** [img] has [h] rows of [w] pixels each. *)
Definition grid_shape (img : grid) (h w : nat) : Prop :=
  length img = h /\ forall i, (i < h)%nat -> length (img !!! i) = w.

(** A non-empty rectangular image.  Every image the program builds has
    [int] dimensions ([read_image] and the transforms allocate with [int]
    sizes), so both dimensions are below [2^31]. *)
Definition wf_grid (g : grid) : Prop :=
  g <> [] /\ grid_shape g (length g) (length (g !!! 0%nat)) /\
  Z.of_nat (length g) < 2 ^ 31 /\ Z.of_nat (length (g !!! 0%nat)) < 2 ^ 31.

(** ** Statements of the specification, for comparison with the code *)

(** The nearest integer to [s / 3] for [s >= 0]: [floor (s/3 + 1/2)]. *)
Definition spec_round_third (s : Z) : Z := (2 * s + 3) / 6.

(** Posterize5 as the specification states it: white from 550, black up to
    150, else the colour of the maximal channel, red before green before blue. *)
Definition spec_posterize (p : Pixel) : Pixel :=
  let s := red p + green p + blue p in
  if 550 <=? s then mkPixel 255 255 255
  else if s <=? 150 then mkPixel 0 0 0
  else if (green p <=? red p) && (blue p <=? red p) then mkPixel 255 0 0
  else if blue p <=? green p then mkPixel 0 255 0
  else mkPixel 0 0 255.

(** [Rotate90] applied [n] times. *)
Definition rotate_iter (n : nat) (g : grid) : option grid :=
  Nat.iter n (fun o => o ≫= process_4) (Some g).

Definition channel_range (p : Pixel) : Prop :=
  0 <= red p <= 255 /\ 0 <= green p <= 255 /\ 0 <= blue p <= 255.

(** A header field as the specification reads it: the unsigned
    little-endian number in the [n] bytes at offset [off]. *)
Definition le_field (file : list Byte.byte) (off n : nat) : Z :=
  fold_right (fun b acc => byte_val b + 256 * acc) 0 (take n (drop off file)).

(** The size check as the specification states it: the file-size field
    equals pixel-array offset + (bytes per row + padding) * height, with the
    padding the smallest non-negative value making the row a multiple of 4. *)
Definition spec_size_ok (file : list Byte.byte) : bool :=
  let file_size := le_field file 2 4 in
  let start := le_field file 10 4 in
  let width := le_field file 18 4 in
  let height := le_field file 22 4 in
  let bits_per_pixel := le_field file 28 2 in
  let row_size := width * (bits_per_pixel / 8) in
  let padding := (- row_size) mod 4 in
  file_size =? start + (row_size + padding) * height.

(** A 54-byte header: file size 54, pixel array at 54, width 1, height
    [2^30], 24 bits per pixel. *)
Definition header_height_2_30 : list Byte.byte :=
  map to_byte ([66; 77; 54; 0; 0; 0; 0; 0; 0; 0; 54; 0; 0; 0; 40; 0; 0; 0;
                1; 0; 0; 0; 0; 0; 0; 64; 1; 0; 24; 0] ++ replicate 24 0).

(** A 54-byte header: file size 50, pixel array at 54, width 1, height
    field FF FF FF FF, 24 bits per pixel. *)
Definition header_height_ffffffff : list Byte.byte :=
  map to_byte ([66; 77; 50; 0; 0; 0; 0; 0; 0; 0; 54; 0; 0; 0; 40; 0; 0; 0;
                1; 0; 0; 0; 255; 255; 255; 255; 1; 0; 24; 0] ++ replicate 24 0).

(** ** Byte layout of the encoded file *)

Definition row_bytes (padding_bytes : Z) (row : list Pixel) : list Byte.byte :=
  concat (map pixel_bytes row) ++ replicate (Z.to_nat padding_bytes) Byte.x00.

(** The four bytes [set_bytes] writes for a 4-byte field. *)
Definition le_bytes4 (v : Z) : list Byte.byte :=
  [to_byte (Z.shiftr v 0); to_byte (Z.shiftr v 8);
   to_byte (Z.shiftr v 16); to_byte (Z.shiftr v 24)].

(** A sample image for the five-colour transform. *)
Definition posterize_grid_example : grid :=
  [[mkPixel 200 200 200; mkPixel 10 20 30; mkPixel 100 100 40]].

(** ** Loops *)

Lemma loop_ind {A} (P : nat -> A -> Prop) (n : Z) (body : Z -> A -> A) (a : A) :
  P 0%nat a ->
  (forall k acc, (k < Z.to_nat n)%nat -> P k acc -> P (S k) (body (Z.of_nat k) acc)) ->
  P (Z.to_nat n) (loop n body a).
Proof.
  intros H0 HS. unfold loop.
  assert (Hm : forall m, (m <= Z.to_nat n)%nat ->
    P m (fold_left (fun acc k => body (Z.of_nat k) acc) (seq 0 m) a)).
  { induction m as [|m IH]; intros Hm; [done|].
    rewrite seq_S, fold_left_app. simpl. apply HS; [lia|]. apply IH; lia. }
  apply Hm; lia.
Qed.

Lemma loop_down_S {A} (k : nat) (body : Z -> A -> A) (a : A) :
  loop_down (Z.of_nat (S k)) body a = loop_down (Z.of_nat k) body (body (Z.of_nat k) a).
Proof.
  unfold loop_down. rewrite !Nat2Z.id, seq_S, rev_app_distr. reflexivity.
Qed.

Lemma loop_down_0 {A} (body : Z -> A -> A) (a : A) : loop_down 0 body a = a.
Proof. reflexivity. Qed.

(** ** Machine integers *)

(** [lia] on goals that mention the bounds of [int]. *)
Ltac int_lia := change (2 ^ 31) with 2147483648 in *; lia.

Lemma wrap32_id (z : Z) : - 2 ^ 31 <= z < 2 ^ 31 -> wrap32 z = z.
Proof.
  intros Hz. unfold wrap32. rewrite Z.mod_small; lia.
Qed.

Lemma new_vector_nat {A} (n : nat) (x : A) :
  new_vector (Z.of_nat n) x = Some (replicate n x).
Proof.
  unfold new_vector. destruct (Z.ltb_spec (Z.of_nat n) 0); [lia|].
  by rewrite Nat2Z.id.
Qed.

Lemma bind_Some {A B} (f : A -> option B) (x : A) : Some x ≫= f = f x.
Proof. reflexivity. Qed.

(** ** Image updates *)

Lemma replicate_shape (h w : nat) (x : Pixel) :
  grid_shape (replicate h (replicate w x)) h w.
Proof.
  split; [by rewrite length_replicate|].
  intros i Hi. by rewrite lookup_total_replicate_2, length_replicate.
Qed.

Lemma set2_shape (img : grid) (h w : nat) (i j : Z) (p : Pixel) :
  grid_shape img h w -> grid_shape (set2 img i j p) h w.
Proof.
  intros [Hl Hr]. split; [by unfold set2; rewrite length_alter|].
  intros k Hk. unfold set2. rewrite list_lookup_total_alter.
  case_decide as Hd; [destruct Hd as [<- _]; rewrite length_insert|]; auto.
Qed.

Lemma set2_lookup (img : grid) (h w : nat) (i j : Z) (p : Pixel) (r c : nat) :
  grid_shape img h w -> (Z.to_nat i < h)%nat -> (Z.to_nat j < w)%nat ->
  (set2 img i j p !!! r) !!! c =
    if decide (r = Z.to_nat i /\ c = Z.to_nat j) then p else (img !!! r) !!! c.
Proof.
  intros [Hl Hr] Hi Hj. unfold set2. rewrite list_lookup_total_alter.
  destruct (decide (Z.to_nat i = r /\ Z.to_nat i < length img)%nat) as [[<- _]|Hd].
  - rewrite list_lookup_total_insert. rewrite Hr by done.
    repeat case_decide; naive_solver lia.
  - case_decide; [|done]. exfalso. apply Hd. lia.
Qed.

(** ** Nested loops that write every cell once *)

(** The loops [for row < h, for col < w: img[row][col] = v(row, col)] on an
    image of [h] rows of [w] pixels leave [v(r, c)] in every cell. *)
Lemma fill_loop (h w : nat) (v : Z -> Z -> Pixel) (img0 : grid) :
  grid_shape img0 h w ->
  let img := loop (Z.of_nat h) (fun row img =>
               loop (Z.of_nat w) (fun col img => set2 img row col (v row col)) img) img0 in
  grid_shape img h w /\
  forall r c, (r < h)%nat -> (c < w)%nat -> (img !!! r) !!! c = v (Z.of_nat r) (Z.of_nat c).
Proof.
  intros Hsh0 img.
  set (P := fun (k : nat) (img : grid) => grid_shape img h w /\
    forall r c, (r < k)%nat -> (c < w)%nat -> (img !!! r) !!! c = v (Z.of_nat r) (Z.of_nat c)).
  enough (Hend : P (Z.to_nat (Z.of_nat h)) img).
  { rewrite Nat2Z.id in Hend. destruct Hend as [Hs Hv]. split; [done|].
    intros r c Hr Hc. apply Hv; lia. }
  apply loop_ind.
  - split; [done|]. intros; lia.
  - intros k acc Hk [Hs Hv]. rewrite Nat2Z.id in Hk.
    set (Q := fun (k' : nat) (img : grid) => grid_shape img h w /\
      forall r c, (r < k \/ (r = k /\ c < k'))%nat -> (c < w)%nat ->
        (img !!! r) !!! c = v (Z.of_nat r) (Z.of_nat c)).
    enough (HQ : Q (Z.to_nat (Z.of_nat w)) (loop (Z.of_nat w) (fun col img =>
          set2 img (Z.of_nat k) col (v (Z.of_nat k) col)) acc)).
    { rewrite Nat2Z.id in HQ. destruct HQ as [Hs' Hv']. split; [done|].
      intros r c Hr Hc. apply Hv'; lia. }
    apply loop_ind.
    + split; [done|]. intros r c [Hr|Hr] Hc; [by apply Hv|lia].
    + intros k' acc' Hk' [Hs' Hv']. rewrite Nat2Z.id in Hk'. split.
      * by apply set2_shape.
      * intros r c Hr Hc. rewrite (set2_lookup _ h w) by (done || lia).
        rewrite !Nat2Z.id. case_decide as Hd.
        -- by destruct Hd as [-> ->].
        -- apply Hv'; [|done]. lia.
Qed.

(** Two images of the same shape with the same pixels are equal. *)
Lemma grid_eq (a b : grid) (h w : nat) :
  grid_shape a h w -> grid_shape b h w ->
  (forall r c, (r < h)%nat -> (c < w)%nat -> (a !!! r) !!! c = (b !!! r) !!! c) ->
  a = b.
Proof.
  intros [Ha Har] [Hb Hbr] Hv.
  apply (list_eq_same_length _ _ h); [done|done|].
  intros i x y Hi Hx Hy.
  apply list_lookup_total_correct in Hx, Hy. subst x y.
  apply (list_eq_same_length _ _ w); [by apply Hbr|by apply Har|].
  intros j x y Hj Hx Hy.
  apply list_lookup_total_correct in Hx, Hy. subst x y. by apply Hv.
Qed.

(** ** The per-pixel skeleton *)

Lemma pixelwise_spec (f : Pixel -> Pixel) (g : grid) :
  wf_grid g ->
  exists g', pixelwise f g = Some g' /\ grid_shape g' (length g) (length (g !!! 0%nat)) /\
    forall r c, (r < length g)%nat -> (c < length (g !!! 0%nat))%nat ->
      (g' !!! r) !!! c = f ((g !!! r) !!! c).
Proof.
  intros (_ & Hsh & HH & HW). unfold pixelwise.
  rewrite !wrap32_id by lia. rewrite new_vector_nat; simpl; rewrite new_vector_nat; simpl.
  eexists; split; [reflexivity|].
  destruct (fill_loop (length g) (length (g !!! 0%nat)) (fun row col => f (get2 g row col))
              _ (replicate_shape _ _ default_pixel)) as [Hs Hv].
  split; [done|]. intros r c Hr Hc. rewrite Hv by done. unfold get2. by rewrite !Nat2Z.id.
Qed.

(** ** Bytes *)

Lemma byte_val_range (b : Byte.byte) : 0 <= byte_val b <= 255.
Proof.
  unfold byte_val. pose proof (Byte.to_N_bounded b). lia.
Qed.

Lemma to_byte_val (z : Z) : byte_val (to_byte z) = z mod 256.
Proof.
  unfold to_byte, byte_val.
  pose proof (Z.mod_pos_bound z 256 ltac:(lia)) as Hb.
  pose proof (Byte.to_of_N_option_map (Z.to_N (z mod 256))) as Hm.
  destruct (Byte.of_N (Z.to_N (z mod 256))) as [b|] eqn:Hb'; simpl in Hm.
  - destruct (N.leb_spec (Z.to_N (z mod 256)) 255); [|discriminate].
    injection Hm as ->. lia.
  - destruct (N.leb_spec (Z.to_N (z mod 256)) 255); [discriminate|lia].
Qed.

Lemma to_byte_val_small (z : Z) : 0 <= z < 256 -> byte_val (to_byte z) = z.
Proof. intros. rewrite to_byte_val. by apply Z.mod_small. Qed.

(** ** Padding *)

Lemma wrap32_mod4 (z : Z) : (- wrap32 z) mod 4 = (- z) mod 4.
Proof.
  unfold wrap32. rewrite (Z.mod_eq (z + 2 ^ 31) (2 ^ 32)) by lia.
  replace (- (z + 2 ^ 31 - 2 ^ 32 * ((z + 2 ^ 31) / 2 ^ 32) - 2 ^ 31))
    with (- z + ((z + 2 ^ 31) / 2 ^ 32 * 2 ^ 30) * 4) by lia.
  by rewrite Z.mod_add by lia.
Qed.

Lemma write_padding_mod (x : Z) : write_padding x = (- x) mod 4.
Proof.
  unfold write_padding.
  pose proof (Z.quot_rem' x 4) as Hq.
  pose proof (Z.rem_bound_abs x 4 ltac:(lia)) as Hb.
  rewrite Z.rem_mod_nonneg by lia.
  replace (4 - Z.rem x 4) with (- Z.rem x 4 + 1 * 4) by lia.
  rewrite Z.mod_add by lia.
  replace (- x) with (- Z.rem x 4 + (- Z.quot x 4) * 4) by lia.
  by rewrite Z.mod_add by lia.
Qed.

Lemma read_padding_mod (x : Z) : 0 <= x -> read_padding x = (- x) mod 4.
Proof.
  intros Hx. unfold read_padding. rewrite Z.rem_mod_nonneg by lia.
  pose proof (Z.mod_pos_bound x 4 ltac:(lia)) as Hb.
  assert (Hx4 : (- x) mod 4 = (- (x mod 4)) mod 4).
  { rewrite (Z.div_mod x 4) at 1 by lia.
    replace (- (4 * (x / 4) + x mod 4)) with (- (x mod 4) + (- (x / 4)) * 4) by lia.
    by rewrite Z.mod_add by lia. }
  rewrite Hx4. destruct (Z.eqb_spec (x mod 4) 0) as [E|E]; cbn [negb].
  - by rewrite E.
  - rewrite wrap32_id by int_lia.
    replace (- (x mod 4)) with ((4 - x mod 4) + (-1) * 4) by lia.
    rewrite Z.mod_add, (Z.mod_small (4 - x mod 4) 4) by lia. reflexivity.
Qed.

(** ** The bytes [write_image] produces *)

Lemma fold_left_ext_fun {A B} (f f' : A -> B -> A) (l : list B) (a : A) :
  (forall x y, f x y = f' x y) -> fold_left f l a = fold_left f' l a.
Proof.
  intros Hf. revert a. induction l as [|y l IH]; intros a; simpl; [done|].
  by rewrite Hf, IH.
Qed.

Lemma map_replicate {A B} (f : A -> B) (n : nat) (x : A) :
  map f (replicate n x) = replicate n (f x).
Proof. induction n as [|n IH]; simpl; [done|by rewrite IH]. Qed.

Lemma fold_left_app_concat {A B} (f : A -> list B) (l : list A) (acc : list B) :
  fold_left (fun out x => out ++ f x) l acc = acc ++ concat (map f l).
Proof.
  revert acc. induction l as [|x l IH]; intros acc; simpl.
  - by rewrite app_nil_r.
  - by rewrite IH, app_assoc.
Qed.

Lemma map_lookup_total_seq {A} `{Inhabited A} (l : list A) :
  map (fun i => l !!! i) (seq 0 (length l)) = l.
Proof.
  induction l as [|x l IH]; [done|]. simpl. f_equal.
  rewrite <- seq_shift, map_map. exact IH.
Qed.

Lemma length_set_bytes (arr : list Byte.byte) (offset bytes value : Z) :
  length (set_bytes arr offset bytes value) = length arr.
Proof.
  unfold set_bytes, loop. generalize (seq 0 (Z.to_nat bytes)) arr.
  intros l. induction l as [|k l IH]; intros a; simpl; [done|].
  by rewrite IH, length_insert.
Qed.

Lemma pixel_array_rows (g : grid) (W : nat) (padding_bytes : Z) :
  grid_shape g (length g) W ->
  pixel_array g (Z.of_nat W) (Z.of_nat (length g)) padding_bytes =
    concat (map (row_bytes padding_bytes) (rev g)).
Proof.
  intros [_ Hr]. unfold pixel_array, loop_down, loop. rewrite !Nat2Z.id.
  rewrite fold_left_ext_fun with (f' := fun out k => out ++
    (concat (map (fun w => pixel_bytes (get2 g (Z.of_nat k) (Z.of_nat w))) (seq 0 W))
     ++ replicate (Z.to_nat padding_bytes) Byte.x00)).
  2:{ intros out k. by rewrite fold_left_app_concat, <- app_assoc. }
  rewrite fold_left_app_concat. simpl.
  rewrite <- (map_lookup_total_seq g) at 2.
  rewrite <- map_rev, map_map. f_equal. apply map_ext_in.
  intros k Hk. rewrite <- in_rev, in_seq in Hk.
  unfold row_bytes. f_equal.
  rewrite <- (Hr k) by lia. rewrite <- (map_lookup_total_seq (g !!! k)) at 2.
  rewrite map_map. f_equal. apply map_ext. intros w. unfold get2. by rewrite !Nat2Z.id.
Qed.
Lemma write_image_split (g : grid) :
  wf_grid g ->
  let W := Z.of_nat (length (g !!! 0%nat)) in
  let H := Z.of_nat (length g) in
  let padding_bytes := write_padding (wrap32 (W * 3)) in
  let array_bytes := wrap32 (wrap32 (wrap32 (W * 3) + padding_bytes) * H) in
  write_image g = bmp_header array_bytes ++ dib_header W H array_bytes ++
                  concat (map (row_bytes padding_bytes) (rev g)).
Proof.
  intros (_ & Hsh & HH & HW). simpl. unfold write_image.
  rewrite (wrap32_id (Z.of_nat (length (g !!! 0%nat)))), (wrap32_id (Z.of_nat (length g))) by lia.
  by rewrite pixel_array_rows.
Qed.

Lemma length_bmp_header (array_bytes : Z) : length (bmp_header array_bytes) = 14%nat.
Proof. unfold bmp_header. by rewrite !length_set_bytes. Qed.

Lemma length_dib_header (w h array_bytes : Z) : length (dib_header w h array_bytes) = 40%nat.
Proof. unfold dib_header. by rewrite !length_set_bytes. Qed.

(** ** Reading header fields *)

(** Innermost-first removal of [wrap32] around values within range. *)
Ltac unwrap :=
  repeat match goal with
  | |- context [wrap32 ?z] =>
      lazymatch z with
      | context [wrap32 _] => fail
      | _ => rewrite (wrap32_id z) by int_lia
      end
  end.

Lemma drop_lookup (l : list Byte.byte) (n : nat) (b : Byte.byte) (bs : list Byte.byte) :
  drop n l = b :: bs -> l !! n = Some b /\ drop (S n) l = bs.
Proof.
  intros Hd. split.
  - rewrite <- (Nat.add_0_r n), <- lookup_drop, Hd. reflexivity.
  - rewrite <- Nat.add_1_r, <- drop_drop, Hd. reflexivity.
Qed.

Lemma get_step (l bs : list Byte.byte) (pos : Z) (b : Byte.byte) :
  0 <= pos -> drop (Z.to_nat pos) l = b :: bs ->
  get (mkStream l pos false) = (byte_val b, mkStream l (pos + 1) false) /\
  drop (Z.to_nat (pos + 1)) l = bs.
Proof.
  intros Hp Hd. apply drop_lookup in Hd as [Hl Hd].
  unfold get. simpl. rewrite Hl. split; [done|].
  by rewrite Z2Nat.inj_add, Nat.add_1_r by lia.
Qed.

Lemma seekg_ok (l : list Byte.byte) (p q : Z) :
  0 <= q -> seekg q (mkStream l p false) = mkStream l q false.
Proof. intros Hq. unfold seekg. simpl. destruct (Z.ltb_spec q 0); [lia|done]. Qed.

Lemma get_int_le4 (l rest : list Byte.byte) (off p v : Z) :
  0 <= off -> 0 <= v < 2 ^ 31 -> drop (Z.to_nat off) l = le_bytes4 v ++ rest ->
  get_int (mkStream l p false) off 4 = (v, mkStream l (off + 1 + 1 + 1 + 1) false).
Proof.
  intros Ho Hv Hd. unfold le_bytes4 in Hd. simpl in Hd.
  destruct (get_step _ _ _ _ Ho Hd) as [G0 D0].
  destruct (get_step _ _ (off + 1) _ ltac:(lia) D0) as [G1 D1].
  destruct (get_step _ _ (off + 1 + 1) _ ltac:(lia) D1) as [G2 D2].
  destruct (get_step _ _ (off + 1 + 1 + 1) _ ltac:(lia) D2) as [G3 D3].
  unfold get_int, loop. simpl. rewrite seekg_ok by done.
  rewrite G0. simpl. rewrite G1. simpl. rewrite G2. simpl. rewrite G3. simpl.
  rewrite !to_byte_val, !Z.shiftr_div_pow2 by lia.
  change (2 ^ 0) with 1. change (2 ^ 8) with 256.
  change (2 ^ 16) with 65536. change (2 ^ 24) with 16777216.
  rewrite Z.div_1_r.
  assert (E2 : v / 65536 = v / 256 / 256) by (rewrite Z.div_div by lia; reflexivity).
  assert (E3 : v / 16777216 = v / 256 / 256 / 256) by (rewrite !Z.div_div by lia; reflexivity).
  rewrite E2, E3.
  pose proof (Z.div_mod v 256 ltac:(lia)) as M0.
  pose proof (Z.div_mod (v / 256) 256 ltac:(lia)) as M1.
  pose proof (Z.div_mod (v / 256 / 256) 256 ltac:(lia)) as M2.
  pose proof (Z.mod_pos_bound v 256 ltac:(lia)) as B0.
  pose proof (Z.mod_pos_bound (v / 256) 256 ltac:(lia)) as B1.
  pose proof (Z.mod_pos_bound (v / 256 / 256) 256 ltac:(lia)) as B2.
  assert (B3 : 0 <= v / 256 / 256 / 256 < 128).
  { rewrite !Z.div_div by lia. split; [apply Z.div_pos; lia|].
    apply Z.div_lt_upper_bound; int_lia. }
  rewrite (Z.mod_small (v / 256 / 256 / 256)) by lia.
  unwrap. f_equal. lia.
Qed.

Lemma get_int_le2 (l rest : list Byte.byte) (off p v : Z) :
  0 <= off -> 0 <= v < 65536 ->
  drop (Z.to_nat off) l = [to_byte (Z.shiftr v 0); to_byte (Z.shiftr v 8)] ++ rest ->
  get_int (mkStream l p false) off 2 = (v, mkStream l (off + 1 + 1) false).
Proof.
  intros Ho Hv Hd. simpl in Hd.
  destruct (get_step _ _ _ _ Ho Hd) as [G0 D0].
  destruct (get_step _ _ (off + 1) _ ltac:(lia) D0) as [G1 D1].
  unfold get_int, loop. simpl. rewrite seekg_ok by done.
  rewrite G0. simpl. rewrite G1. simpl.
  rewrite !to_byte_val, !Z.shiftr_div_pow2 by lia.
  change (2 ^ 0) with 1. change (2 ^ 8) with 256. rewrite Z.div_1_r.
  pose proof (Z.div_mod v 256 ltac:(lia)) as M0.
  pose proof (Z.mod_pos_bound v 256 ltac:(lia)) as B0.
  assert (B1 : 0 <= v / 256 < 256).
  { split; [apply Z.div_pos; lia|]. apply Z.div_lt_upper_bound; lia. }
  rewrite (Z.mod_small (v / 256)) by lia.
  unwrap. f_equal. lia.
Qed.

(** ** Reading the pixel rows *)

Lemma loop_down_ind {A} (P : nat -> A -> Prop) (n : nat) (body : Z -> A -> A) (a : A) :
  P n a ->
  (forall k acc, (k < n)%nat -> P (S k) acc -> P k (body (Z.of_nat k) acc)) ->
  P 0%nat (loop_down (Z.of_nat n) body a).
Proof.
  intros Hn HS.
  assert (Hm : forall m acc, (m <= n)%nat -> P m acc -> P 0%nat (loop_down (Z.of_nat m) body acc)).
  { induction m as [|m IH]; intros acc Hm Hacc; [done|].
    rewrite loop_down_S. apply IH; [lia|]. apply HS; [lia|done]. }
  by apply Hm.
Qed.

Lemma read_pixel_ok (l rest : list Byte.byte) (p pos i j : Z) (img : grid) (q : Pixel) :
  0 <= pos -> pos + 3 < 2 ^ 31 -> channel_range q ->
  drop (Z.to_nat pos) l = pixel_bytes q ++ rest ->
  read_pixel 24 i j (mkStream l p false, pos, img) =
    (mkStream l (pos + 1 + 1 + 1) false, pos + 3, set2 img i j q) /\
  drop (Z.to_nat (pos + 3)) l = rest.
Proof.
  intros Hp Hb (Hr & Hg & Hbl) Hd. simpl in Hd.
  destruct (get_step _ _ _ _ Hp Hd) as [G0 D0].
  destruct (get_step _ _ (pos + 1) _ ltac:(lia) D0) as [G1 D1].
  destruct (get_step _ _ (pos + 1 + 1) _ ltac:(lia) D1) as [G2 D2].
  unfold read_pixel. rewrite seekg_ok by done.
  rewrite G0. simpl. rewrite G1. simpl. rewrite G2. simpl.
  rewrite !to_byte_val_small by lia. change (Z.quot 24 8) with 3.
  rewrite wrap32_id by int_lia.
  replace (pos + 3) with (pos + 1 + 1 + 1) by lia. split; [|done].
  destruct q; reflexivity.
Qed.

Lemma read_cols_ok (l rest : list Byte.byte) (p pos k : Z) (img : grid) (row : list Pixel) (h : nat) :
  0 <= p -> 0 <= pos -> pos + 3 * Z.of_nat (length row) < 2 ^ 31 ->
  (forall c, (c < length row)%nat -> channel_range (row !!! c)) ->
  grid_shape img h (length row) -> 0 <= k -> (Z.to_nat k < h)%nat ->
  drop (Z.to_nat pos) l = concat (map pixel_bytes row) ++ rest ->
  exists p' img',
    loop (Z.of_nat (length row)) (read_pixel 24 k) (mkStream l p false, pos, img) =
      (mkStream l p' false, pos + 3 * Z.of_nat (length row), img') /\
    0 <= p' /\ grid_shape img' h (length row) /\
    (forall r c, (c < length row)%nat ->
       (img' !!! r) !!! c = if decide (r = Z.to_nat k) then row !!! c else (img !!! r) !!! c) /\
    drop (Z.to_nat (pos + 3 * Z.of_nat (length row))) l = rest.
Proof.
  intros Hp Hpos Hb Hch Hsh Hk Hkh Hd.
  set (P := fun (j : nat) (st : stream * Z * grid) => exists p' img',
    st = (mkStream l p' false, pos + 3 * Z.of_nat j, img') /\ 0 <= p' /\
    grid_shape img' h (length row) /\
    (forall r c, (c < length row)%nat ->
       (img' !!! r) !!! c =
         if decide (r = Z.to_nat k /\ (c < j)%nat) then row !!! c else (img !!! r) !!! c) /\
    drop (Z.to_nat (pos + 3 * Z.of_nat j)) l = concat (map pixel_bytes (drop j row)) ++ rest).
  enough (HP : P (Z.to_nat (Z.of_nat (length row)))
                 (loop (Z.of_nat (length row)) (read_pixel 24 k) (mkStream l p false, pos, img))).
  { rewrite Nat2Z.id in HP. destruct HP as (p' & img' & E & Hp' & Hs' & Hv' & Hd').
    exists p', img'. split; [done|]. do 2 (split; [done|]). split.
    - intros r c Hc. rewrite Hv' by done. repeat case_decide; naive_solver.
    - by rewrite Hd', drop_ge. }
  apply loop_ind.
  - unfold P. exists p, img. simpl. rewrite Z.add_0_r.
    split; [done|]. split; [done|]. split; [done|]. split; [|done].
    intros r c Hc. case_decide; [lia|done].
  - intros j [[s pos'] img'] Hj (p' & img1 & E & Hp' & Hs' & Hv' & Hd').
    rewrite Nat2Z.id in Hj. injection E as -> -> ->.
    rewrite (drop_S row (row !!! j) j) in Hd' by (apply list_lookup_lookup_total_lt; lia).
    cbn [map concat] in Hd'. rewrite <- app_assoc in Hd'.
    destruct (read_pixel_ok _ _ p' (pos + 3 * Z.of_nat j) k (Z.of_nat j) img1 _
                ltac:(lia) ltac:(int_lia)
                (Hch j ltac:(lia)) Hd') as [R D].
    rewrite R. exists (pos + 3 * Z.of_nat j + 1 + 1 + 1), (set2 img1 k (Z.of_nat j) (row !!! j)).
    split; [f_equal; f_equal; lia|]. split; [lia|]. split; [by apply set2_shape|]. split.
    + intros r c Hc. rewrite (set2_lookup _ h (length row)) by (done || lia).
      rewrite Nat2Z.id. case_decide as Hd1.
      * destruct Hd1 as [-> ->]. case_decide; [done|lia].
      * rewrite Hv' by done. repeat case_decide; try done; exfalso; lia.
    + by replace (pos + 3 * Z.of_nat (S j)) with (pos + 3 * Z.of_nat j + 3) by lia.
Qed.

Lemma read_row_ok (l rest : list Byte.byte) (p pos pad k : Z) (img : grid) (row : list Pixel) (h : nat) :
  0 <= p -> 0 <= pos -> 0 <= pad -> pos + 3 * Z.of_nat (length row) + pad < 2 ^ 31 ->
  (forall c, (c < length row)%nat -> channel_range (row !!! c)) ->
  grid_shape img h (length row) -> 0 <= k -> (Z.to_nat k < h)%nat ->
  drop (Z.to_nat pos) l = row_bytes pad row ++ rest ->
  exists p' img',
    read_row (Z.of_nat (length row)) 24 pad k (mkStream l p false, pos, img) =
      (mkStream l p' false, pos + 3 * Z.of_nat (length row) + pad, img') /\
    0 <= p' /\ grid_shape img' h (length row) /\
    (forall r c, (c < length row)%nat ->
       (img' !!! r) !!! c = if decide (r = Z.to_nat k) then row !!! c else (img !!! r) !!! c) /\
    drop (Z.to_nat (pos + 3 * Z.of_nat (length row) + pad)) l = rest.
Proof.
  intros Hp Hpos Hpad Hb Hch Hsh Hk Hkh Hd. unfold row_bytes in Hd. rewrite <- app_assoc in Hd.
  destruct (read_cols_ok l _ p pos k img row h Hp Hpos ltac:(int_lia) Hch Hsh Hk Hkh Hd)
    as (p' & img' & E & Hp' & Hs' & Hv' & Hd').
  unfold read_row. rewrite E. unfold seekg_cur. simpl. rewrite seekg_ok by lia.
  rewrite wrap32_id by int_lia.
  exists (p' + pad), img'.
  split; [reflexivity|]. split; [lia|]. split; [done|]. split; [done|].
  rewrite Z2Nat.inj_add by lia. rewrite <- drop_drop, Hd'.
  apply drop_app_length'. by rewrite length_replicate.
Qed.

(** The header fields [read_image] reads, in the bytes [write_image] writes. *)
Lemma header_fields (array_bytes W H : Z) (body : list Byte.byte) :
  let l := bmp_header array_bytes ++ dib_header W H array_bytes ++ body in
  drop 2 l = le_bytes4 (wrap32 (14 + 40 + array_bytes)) ++ drop 6 l /\
  drop 10 l = le_bytes4 54 ++ drop 14 l /\
  drop 18 l = le_bytes4 W ++ drop 22 l /\
  drop 22 l = le_bytes4 H ++ drop 26 l /\
  drop 28 l = [to_byte (Z.shiftr 24 0); to_byte (Z.shiftr 24 8)] ++ drop 30 l.
Proof. intros l. repeat split; reflexivity. Qed.

(** The outer loop of [read_image] on the rows [write_image] writes. *)
Lemma read_rows_ok (l : list Byte.byte) (g : grid) (Wn : nat) (pad start p : Z)
    (s' : stream) (pos' : Z) (img' : grid) :
  grid_shape g (length g) Wn -> Forall (Forall channel_range) g ->
  0 <= p -> 0 <= start -> 0 <= pad ->
  start + (3 * Z.of_nat Wn + pad) * Z.of_nat (length g) < 2 ^ 31 ->
  drop (Z.to_nat start) l = concat (map (row_bytes pad) (rev g)) ->
  loop_down (Z.of_nat (length g)) (read_row (Z.of_nat Wn) 24 pad)
    (mkStream l p false, start, replicate (length g) (replicate Wn default_pixel)) =
    (s', pos', img') ->
  img' = g.
Proof.
  intros Hsh Hch Hp Hs Hpad Hb Hd E.
  set (Hn := length g) in *. set (X := 3 * Z.of_nat Wn + pad) in *.
  set (Inv := fun (k : nat) (st : stream * Z * grid) =>
    match st with (s, pos, img) =>
      exists p', s = mkStream l p' false /\ 0 <= p' /\
        pos = start + Z.of_nat (Hn - k) * X /\
        drop (Z.to_nat pos) l = concat (map (row_bytes pad) (rev (take k g))) /\
        grid_shape img Hn Wn /\
        forall r c, (k <= r < Hn)%nat -> (c < Wn)%nat -> (img !!! r) !!! c = (g !!! r) !!! c
    end).
  assert (HI : Inv 0%nat (loop_down (Z.of_nat Hn) (read_row (Z.of_nat Wn) 24 pad)
            (mkStream l p false, start, replicate Hn (replicate Wn default_pixel)))).
  { apply loop_down_ind.
    - exists p. rewrite Nat.sub_diag, take_ge by lia.
      split; [done|]. split; [done|]. split; [lia|]. split; [done|].
      split; [apply replicate_shape|]. intros; lia.
    - intros k [[s pos] img] Hk (p1 & -> & Hp1 & Hpos & Hdrop & Hsh1 & Hv).
      assert (Hlen : length (g !!! k) = Wn) by (apply (proj2 Hsh); lia).
      rewrite (take_S_r g k (g !!! k)) in Hdrop by (apply list_lookup_lookup_total_lt; lia).
      rewrite rev_app_distr in Hdrop. cbn [rev app map concat] in Hdrop.
      assert (HXn : Z.of_nat (Hn - k) * X <= Z.of_nat Hn * X)
        by (apply Z.mul_le_mono_nonneg_r; lia).
      assert (HXk : Z.of_nat (Hn - k) = Z.of_nat (Hn - S k) + 1) by lia.
      assert (HXd : X = 3 * Z.of_nat Wn + pad) by reflexivity.
      assert (HX0 : 0 <= Z.of_nat (Hn - S k) * X) by (apply Z.mul_nonneg_nonneg; lia).
      assert (Hsh2 : grid_shape img Hn (length (g !!! k))) by (by rewrite Hlen).
      destruct (read_row_ok l _ p1 pos pad (Z.of_nat k) img (g !!! k) Hn Hp1
                  ltac:(lia) Hpad ltac:(rewrite Hlen; int_lia)
                  ltac:(intros c Hc; apply (Forall_lookup_total_1 _ _ c);
                        [apply (Forall_lookup_total_1 _ _ k Hch); lia|done])
                  Hsh2 ltac:(lia) ltac:(lia) Hdrop)
        as (p2 & img2 & R & Hp2 & Hs2 & Hv2 & Hd2).
      rewrite Hlen in R, Hs2, Hv2, Hd2. rewrite R.
      exists p2. split; [done|]. split; [done|]. split.
      { rewrite HXk, Hpos. unfold X. ring. }
      split; [done|]. split; [done|].
      intros r c Hr Hc. rewrite Hv2 by done. rewrite Nat2Z.id.
      case_decide as Hrk; [by subst r|]. apply Hv; [lia|done]. }
  rewrite E in HI. destruct HI as (p1 & _ & _ & _ & _ & Hsh1 & Hv).
  apply (grid_eq _ _ Hn Wn); [done|done|]. intros r c Hr Hc. apply Hv; lia.
Qed.

(** [get_int] on four bytes whose value fits in an [int]. *)
Lemma get_int_field4 (l : list Byte.byte) (off p : Z) :
  0 <= off -> (Z.to_nat off + 4 <= length l)%nat -> le_field l (Z.to_nat off) 4 < 2 ^ 31 ->
  get_int (mkStream l p false) off 4 =
    (le_field l (Z.to_nat off) 4, mkStream l (off + 1 + 1 + 1 + 1) false).
Proof.
  intros Ho Hlen Hv. unfold le_field in *.
  destruct (drop (Z.to_nat off) l) as [|b0 [|b1 [|b2 [|b3 rest]]]] eqn:Hd;
    try (pose proof (f_equal length Hd) as Hl; rewrite length_drop in Hl; simpl in Hl; lia).
  simpl in Hv |- *.
  pose proof (byte_val_range b0). pose proof (byte_val_range b1).
  pose proof (byte_val_range b2). pose proof (byte_val_range b3).
  destruct (get_step _ _ _ _ Ho Hd) as [G0 D0].
  destruct (get_step _ _ (off + 1) _ ltac:(lia) D0) as [G1 D1].
  destruct (get_step _ _ (off + 1 + 1) _ ltac:(lia) D1) as [G2 D2].
  destruct (get_step _ _ (off + 1 + 1 + 1) _ ltac:(lia) D2) as [G3 D3].
  unfold get_int, loop. simpl. rewrite seekg_ok by done.
  rewrite G0. simpl. rewrite G1. simpl. rewrite G2. simpl. rewrite G3. simpl.
  unwrap. f_equal. lia.
Qed.

(** [get_int] on two bytes. *)
Lemma get_int_field2 (l : list Byte.byte) (off p : Z) :
  0 <= off -> (Z.to_nat off + 2 <= length l)%nat ->
  get_int (mkStream l p false) off 2 =
    (le_field l (Z.to_nat off) 2, mkStream l (off + 1 + 1) false).
Proof.
  intros Ho Hlen. unfold le_field in *.
  destruct (drop (Z.to_nat off) l) as [|b0 [|b1 rest]] eqn:Hd;
    try (pose proof (f_equal length Hd) as Hl; rewrite length_drop in Hl; simpl in Hl; lia).
  simpl.
  pose proof (byte_val_range b0). pose proof (byte_val_range b1).
  destruct (get_step _ _ _ _ Ho Hd) as [G0 D0].
  destruct (get_step _ _ (off + 1) _ ltac:(lia) D0) as [G1 D1].
  unfold get_int, loop. simpl. rewrite seekg_ok by done.
  rewrite G0. simpl. rewrite G1. simpl.
  unwrap. f_equal. lia.
Qed.

Lemma le_field_range (l : list Byte.byte) (off n : nat) : 0 <= le_field l off n.
Proof.
  unfold le_field. generalize (take n (drop off l)). intros bs.
  induction bs as [|b bs IH]; simpl; [lia|]. pose proof (byte_val_range b). lia.
Qed.

Lemma le_field2_bound (l : list Byte.byte) (off : nat) : le_field l off 2 < 65536.
Proof.
  unfold le_field. destruct (drop off l) as [|b0 [|b1 rest]]; simpl; [lia| |].
  - pose proof (byte_val_range b0). lia.
  - pose proof (byte_val_range b0). pose proof (byte_val_range b1). lia.
Qed.

(** The reading loops of [read_image] keep the number of rows of the image. *)
Lemma fold_left_invariant {A B} (P : A -> Prop) (f : A -> B -> A) (l : list B) (a : A) :
  P a -> (forall a b, P a -> P (f a b)) -> P (fold_left f l a).
Proof. revert a. induction l as [|b l IH]; intros a Ha Hf; simpl; [done|]. auto. Qed.

Lemma read_rows_length (height width bits_per_pixel padding : Z) (st : stream * Z * grid) :
  length (loop_down height (read_row width bits_per_pixel padding) st).2 = length st.2.
Proof.
  unfold loop_down. apply (fold_left_invariant (fun st' => length st'.2 = length st.2));
    [done|]. intros [[s pos] img] k Hl. simpl in Hl. unfold read_row, loop.
  set (P := fun st' : stream * Z * grid => length st'.2 = length st.2).
  assert (HP : P (fold_left (fun acc j => read_pixel bits_per_pixel (Z.of_nat k) (Z.of_nat j) acc)
                    (seq 0 (Z.to_nat width)) (s, pos, img))).
  { apply fold_left_invariant; [done|]. intros [[s1 pos1] img1] j H1. unfold P in *.
    simpl in H1. unfold read_pixel.
    destruct (get (seekg pos1 s1)) as [b s2]. destruct (get s2) as [g s3].
    destruct (get s3) as [r s4]. simpl. unfold set2. by rewrite length_alter. }
  destruct (fold_left _ _ _) as [[s1 pos1] img1]. exact HP.
Qed.

Lemma posterize_pixel_spec (p : Pixel) :
  channel_range p -> posterize_pixel p = spec_posterize p.
Proof.
  destruct p as [r g b]. intros (Hr & Hg & Hb). simpl in *.
  unfold posterize_pixel, spec_posterize, channel_sum. simpl.
  rewrite (wrap32_id (r + g)), (wrap32_id (r + g + b)) by lia.
  destruct (Z.leb_spec 550 (r + g + b)); [done|].
  destruct (Z.leb_spec (r + g + b) 150); [done|].
  destruct (Z.eqb_spec (Z.max (Z.max r g) b) r);
    destruct (Z.eqb_spec (Z.max (Z.max r g) b) g);
    destruct (Z.leb_spec g r); destruct (Z.leb_spec b r); destruct (Z.leb_spec b g);
    simpl; try reflexivity; lia.
Qed.

(** ** Claims *)

(** C3 (counterexample): at 24 bits per pixel, width 3 gives 9 bytes per
    row and a row padding of 3 in [read_image] and in [write_image], not 1. *)
Lemma padding_width_3_not_1 :
  read_padding (wrap32 (3 * Z.quot 24 8)) = 3 /\
  write_padding (wrap32 (3 * 3)) = 3 /\
  read_padding (wrap32 (3 * Z.quot 24 8)) <> 1.
Proof. repeat split; vm_compute; congruence. Qed.

(** C3 (amended): at 24 bits per pixel, width 3 (9 bytes per row) gives row
    padding 3 and width 4 (12 bytes per row) gives padding 0, both in
    [read_image] and in [write_image]; each is the least non-negative value
    that makes the row a multiple of 4 bytes. *)
Theorem padding_width_3_and_4 :
  read_padding (wrap32 (3 * Z.quot 24 8)) = 3 /\
  write_padding (wrap32 (3 * 3)) = 3 /\
  (9 + 3) mod 4 = 0 /\ Forall (fun p => (9 + p) mod 4 <> 0) [0; 1; 2] /\
  read_padding (wrap32 (4 * Z.quot 24 8)) = 0 /\
  write_padding (wrap32 (4 * 3)) = 0 /\
  (12 + 0) mod 4 = 0.
Proof.
  repeat split; try (vm_compute; congruence).
  repeat constructor; vm_compute; congruence.
Qed.

(** C4 (code bug): grayscale does not round the mean.  [(red + green +
    blue)/3] is an integer division, so adding 0.5 afterwards changes
    nothing: the pixel (1,1,0), of mean 2/3, becomes (0,0,0), while the
    nearest integer to 2/3 is 1. *)
Theorem grayscale_pixel_1_1_0 :
  process_3 [[mkPixel 1 1 0]] = Some [[mkPixel 0 0 0]] /\
  spec_round_third (1 + 1 + 0) = 1.
Proof. split; reflexivity. Qed.

(** C5 (code bug): the high-contrast threshold is [255/2 = 127], not 128:
    the pixel (127,127,127), of average 127, becomes white. *)
Theorem high_contrast_pixel_127 :
  process_7 [[mkPixel 127 127 127]] = Some [[mkPixel 255 255 255]] /\
  (127 + 127 + 127) / 3 < 128.
Proof. split; reflexivity. Qed.

(** C6 (code bug): for [number = -2], [angle % 360] is [-180] in C++, so
    [process_5] falls through to three quarter turns, while [-2 mod 4 = 2]
    quarter turns give a different image. *)
Theorem rotate_minus_2 :
  process_5 [[mkPixel 1 0 0; mkPixel 2 0 0]] (-2) = Some [[mkPixel 2 0 0]; [mkPixel 1 0 0]] /\
  rotate_iter (Z.to_nat (-2 mod 4)) [[mkPixel 1 0 0; mkPixel 2 0 0]] =
    Some [[mkPixel 2 0 0; mkPixel 1 0 0]].
Proof. split; reflexivity. Qed.

(** C9: on a non-empty rectangular image with channels in [0,255],
    [process_10] keeps the size and maps every pixel to white when its
    channel sum is at least 550, to black when it is at most 150, and
    otherwise to the pure colour of its maximal channel, ties going to red,
    then green. *)
Theorem posterize_classification (g : grid) :
  wf_grid g ->
  (forall r c, (r < length g)%nat -> (c < length (g !!! 0%nat))%nat ->
     channel_range ((g !!! r) !!! c)) ->
  exists g', process_10 g = Some g' /\
    grid_shape g' (length g) (length (g !!! 0%nat)) /\
    forall r c, (r < length g)%nat -> (c < length (g !!! 0%nat))%nat ->
      (g' !!! r) !!! c = spec_posterize ((g !!! r) !!! c).
Proof.
  intros Hwf Hrange.
  destruct (pixelwise_spec posterize_pixel g Hwf) as (g' & Hg' & Hsh & Hv).
  exists g'. split; [done|]. split; [done|].
  intros r c Hr Hc. rewrite Hv by done. by apply posterize_pixel_spec, Hrange.
Qed.

Lemma posterize_classification_witness :
  exists g', process_10 posterize_grid_example = Some g' /\
    grid_shape g' 1 3 /\
    forall r c, (r < 1)%nat -> (c < 3)%nat ->
      (g' !!! r) !!! c = spec_posterize ((posterize_grid_example !!! r) !!! c).
Proof.
  apply (posterize_classification posterize_grid_example).
  - unfold wf_grid, grid_shape. vm_compute.
    split; [discriminate|]. split; [split; [reflexivity|]|split; reflexivity].
    intros i Hi. destruct i as [|i]; [reflexivity|lia].
  - intros r c Hr Hc. simpl in Hr, Hc.
    destruct r as [|r]; [|lia].
    destruct c as [|[|[|c]]]; try lia; unfold channel_range; simpl; lia.
Defined.

(** C7: on a non-empty rectangular image of height [H] and width [W],
    [process_4] returns an image of height [W] and width [H] whose pixel at
    [(c, H-1-r)] is the input pixel at [(r, c)]. *)
Theorem rotate90_index_map (g : grid) :
  wf_grid g ->
  exists g', process_4 g = Some g' /\
    grid_shape g' (length (g !!! 0%nat)) (length g) /\
    forall r c, (r < length g)%nat -> (c < length (g !!! 0%nat))%nat ->
      (g' !!! c) !!! (length g - 1 - r)%nat = (g !!! r) !!! c.
Proof.
  intros (Hne & Hsh & HH & HW). unfold process_4.
  set (H := length g) in *. set (W := length (g !!! 0%nat)) in *.
  assert (H1 : (1 <= H)%nat) by (destruct g; [done|simpl in *; lia]).
  rewrite !wrap32_id by lia. rewrite new_vector_nat; simpl; rewrite new_vector_nat; simpl.
  eexists; split; [reflexivity|].
  set (P := fun (k : nat) (img : grid) => grid_shape img W H /\
    forall r c, (r < k)%nat -> (c < W)%nat -> (img !!! c) !!! (H - 1 - r)%nat = (g !!! r) !!! c).
  enough (Hend : P (Z.to_nat (Z.of_nat H)) (loop (Z.of_nat H) (fun row img =>
      loop (Z.of_nat W) (fun col img =>
        set2 img col (wrap32 (Z.of_nat H - 1 - row)) (get2 g row col)) img)
      (replicate W (replicate H default_pixel)))).
  { rewrite Nat2Z.id in Hend. destruct Hend as [Hs Hv]. split; [done|].
    intros r c Hr Hc. apply Hv; lia. }
  apply loop_ind.
  - split; [apply replicate_shape|]. intros; lia.
  - intros k acc Hk [Hs Hv]. rewrite Nat2Z.id in Hk.
    assert (Ht : wrap32 (Z.of_nat H - 1 - Z.of_nat k) = Z.of_nat (H - 1 - k)).
    { rewrite wrap32_id by lia. lia. }
    rewrite Ht.
    set (Q := fun (k' : nat) (img : grid) => grid_shape img W H /\
      forall r c, (r < k \/ (r = k /\ c < k'))%nat -> (c < W)%nat ->
        (img !!! c) !!! (H - 1 - r)%nat = (g !!! r) !!! c).
    enough (HQ : Q (Z.to_nat (Z.of_nat W)) (loop (Z.of_nat W) (fun col img =>
          set2 img col (Z.of_nat (H - 1 - k)) (get2 g (Z.of_nat k) col)) acc)).
    { rewrite Nat2Z.id in HQ. destruct HQ as [Hs' Hv']. split; [done|].
      intros r c Hr Hc. apply Hv'; lia. }
    apply loop_ind.
    + split; [done|]. intros r c [Hr|Hr] Hc; [by apply Hv|lia].
    + intros k' acc' Hk' [Hs' Hv']. rewrite Nat2Z.id in Hk'. split.
      * by apply set2_shape.
      * intros r c Hr Hc. rewrite (set2_lookup _ W H) by (done || lia).
        rewrite !Nat2Z.id. case_decide as Hd.
        -- destruct Hd as [-> Hrk]. assert (r = k) as -> by lia.
           unfold get2. by rewrite !Nat2Z.id.
        -- apply Hv'; [|done]. assert (c <> k' \/ r <> k) by lia. lia.
Qed.

Lemma rotate90_index_map_witness :
  exists g', process_4 [[mkPixel 1 0 0; mkPixel 2 0 0; mkPixel 3 0 0]] = Some g' /\
    grid_shape g' 3 1 /\
    forall r c, (r < 1)%nat -> (c < 3)%nat ->
      (g' !!! c) !!! (1 - 1 - r)%nat =
        ([[mkPixel 1 0 0; mkPixel 2 0 0; mkPixel 3 0 0]] !!! r) !!! c.
Proof.
  apply (rotate90_index_map [[mkPixel 1 0 0; mkPixel 2 0 0; mkPixel 3 0 0]]).
  unfold wf_grid, grid_shape. simpl.
  split; [discriminate|]. split; [split; [reflexivity|]|split; lia].
  intros i Hi. destruct i as [|i]; [reflexivity|lia].
Defined.

(** Index of the source pixel in [process_6]. *)
Lemma enlarge_index (k : nat) (scale : Z) :
  1 <= scale ->
  trunc_plus_half (Z.quot (Z.of_nat k) scale) = Z.of_nat (k / Z.to_nat scale).
Proof.
  intros Hs. rewrite Z.quot_div_nonneg by lia.
  rewrite Nat2Z.inj_div, Z2Nat.id by lia.
  unfold trunc_plus_half. destruct (Z.leb_spec 0 (Z.of_nat k / scale)); [done|].
  exfalso. assert (0 <= Z.of_nat k / scale) by (apply Z.div_pos; lia). lia.
Qed.

Lemma enlarge_pixels (g : grid) (x_scale y_scale : Z) :
  wf_grid g -> 1 <= x_scale -> 1 <= y_scale ->
  Z.of_nat (length g) * y_scale < 2 ^ 31 ->
  Z.of_nat (length (g !!! 0%nat)) * x_scale < 2 ^ 31 ->
  exists g', process_6 g x_scale y_scale = Some g' /\
    grid_shape g' (length g * Z.to_nat y_scale) (length (g !!! 0%nat) * Z.to_nat x_scale) /\
    forall r c, (r < length g * Z.to_nat y_scale)%nat ->
      (c < length (g !!! 0%nat) * Z.to_nat x_scale)%nat ->
      (g' !!! r) !!! c = (g !!! (r / Z.to_nat y_scale)%nat) !!! (c / Z.to_nat x_scale)%nat.
Proof.
  intros (_ & Hsh & HH & HW) Hx Hy HHy HWx. unfold process_6.
  set (H := length g) in *. set (W := length (g !!! 0%nat)) in *.
  rewrite (wrap32_id (Z.of_nat H)), (wrap32_id (Z.of_nat W)) by lia.
  rewrite (wrap32_id (Z.of_nat H * y_scale)), (wrap32_id (Z.of_nat W * x_scale)) by lia.
  replace (Z.of_nat H * y_scale) with (Z.of_nat (H * Z.to_nat y_scale)) by lia.
  replace (Z.of_nat W * x_scale) with (Z.of_nat (W * Z.to_nat x_scale)) by lia.
  rewrite new_vector_nat; simpl; rewrite new_vector_nat; simpl.
  eexists; split; [reflexivity|].
  destruct (fill_loop (H * Z.to_nat y_scale) (W * Z.to_nat x_scale)
              (fun row col => get2 g (trunc_plus_half (Z.quot row y_scale))
                                     (trunc_plus_half (Z.quot col x_scale)))
              _ (replicate_shape _ _ default_pixel)) as [Hs Hv].
  split; [done|]. intros r c Hr Hc. rewrite Hv by done.
  unfold get2. rewrite !enlarge_index by done. by rewrite !Nat2Z.id.
Qed.

(** C8 (counterexample): for the 2-row, 1-column image and the scales
    [x_scale = 1], [y_scale = 2^30], the new height [2 * 2^30] overflows
    [int] to a negative size and the allocation of the new image throws. *)
Lemma enlarge_height_overflow :
  process_6 [[mkPixel 0 0 0]; [mkPixel 0 0 0]] 1 (2 ^ 30) = None.
Proof. vm_compute. reflexivity. Qed.

(** C8 (amended): on a non-empty rectangular image of height [H] and width
    [W], for integer scales [x_scale, y_scale >= 1] with [H * y_scale] and
    [W * x_scale] below [2^31], [process_6] returns an image of height
    [H * y_scale] and width [W * x_scale] whose pixel at [(r, c)] is the
    input pixel at [(r / y_scale, c / x_scale)] (floor division); and
    [process_6 g 1 1] is [g]. *)
Theorem enlarge_spec (g : grid) (x_scale y_scale : Z) :
  wf_grid g -> 1 <= x_scale -> 1 <= y_scale ->
  Z.of_nat (length g) * y_scale < 2 ^ 31 ->
  Z.of_nat (length (g !!! 0%nat)) * x_scale < 2 ^ 31 ->
  (exists g', process_6 g x_scale y_scale = Some g' /\
    grid_shape g' (length g * Z.to_nat y_scale) (length (g !!! 0%nat) * Z.to_nat x_scale) /\
    forall r c, (r < length g * Z.to_nat y_scale)%nat ->
      (c < length (g !!! 0%nat) * Z.to_nat x_scale)%nat ->
      (g' !!! r) !!! c = (g !!! (r / Z.to_nat y_scale)%nat) !!! (c / Z.to_nat x_scale)%nat) /\
  process_6 g 1 1 = Some g.
Proof.
  intros Hwf Hx Hy HHy HWx. split; [by apply enlarge_pixels|].
  pose proof Hwf as (_ & Hsh & HH & HW).
  destruct (enlarge_pixels g 1 1 Hwf) as (g' & Hg' & Hs & Hv); try lia.
  rewrite Hg'. f_equal. change (Z.to_nat 1) with 1%nat in Hs, Hv.
  rewrite !Nat.mul_1_r in Hs, Hv.
  apply (grid_eq _ _ _ _ Hs Hsh). intros r c Hr Hc.
  rewrite Hv by done. by rewrite !Nat.div_1_r.
Qed.

Lemma enlarge_spec_witness :
  (exists g', process_6 [[mkPixel 1 0 0; mkPixel 2 0 0]] 2 3 = Some g' /\
    grid_shape g' (1 * Z.to_nat 3) (2 * Z.to_nat 2) /\
    forall r c, (r < 1 * Z.to_nat 3)%nat -> (c < 2 * Z.to_nat 2)%nat ->
      (g' !!! r) !!! c =
        ([[mkPixel 1 0 0; mkPixel 2 0 0]] !!! (r / Z.to_nat 3)%nat) !!! (c / Z.to_nat 2)%nat) /\
  process_6 [[mkPixel 1 0 0; mkPixel 2 0 0]] 1 1 = Some [[mkPixel 1 0 0; mkPixel 2 0 0]].
Proof.
  apply (enlarge_spec [[mkPixel 1 0 0; mkPixel 2 0 0]] 2 3); simpl; try lia.
  unfold wf_grid, grid_shape. simpl.
  split; [discriminate|]. split; [split; [reflexivity|]|split; lia].
  intros i Hi. destruct i as [|i]; [reflexivity|lia].
Defined.

(** C10: [write_image] writes each channel [v] of a non-empty rectangular
    image as the byte [v mod 256], without clamping or rejecting values
    outside [0,255]: after the 54 header bytes come the rows from the last
    to the first, each pixel as [blue mod 256, green mod 256, red mod 256],
    each row followed by its padding of zero bytes.  For the image
    [[(256,0,0)]] the red byte, at offset 56, is 0. *)
Theorem encode_channels_mod_256 (g : grid) :
  wf_grid g ->
  (exists header, length header = 54%nat /\
    map byte_val (write_image g) = header ++
      concat (map (fun row =>
        concat (map (fun p => [blue p mod 256; green p mod 256; red p mod 256]) row) ++
        replicate (Z.to_nat ((- (3 * Z.of_nat (length (g !!! 0%nat)))) mod 4)) 0) (rev g))) /\
  write_image [[mkPixel 256 0 0]] !! 56%nat = Some Byte.x00.
Proof.
  intros Hwf. split; [|reflexivity].
  rewrite (write_image_split g Hwf). cbv zeta.
  set (AB := wrap32 _). set (W := Z.of_nat (length (g !!! 0%nat))).
  exists (map byte_val (bmp_header AB ++ dib_header W (Z.of_nat (length g)) AB)).
  split.
  { by rewrite length_map, length_app, length_bmp_header, length_dib_header. }
  rewrite app_assoc, map_app. f_equal.
  rewrite concat_map, map_map. f_equal. apply map_ext. intros row.
  unfold row_bytes. rewrite map_app, concat_map, map_map, map_replicate.
  f_equal.
  - f_equal. apply map_ext. intros p. simpl. by rewrite !to_byte_val.
  - rewrite write_padding_mod, wrap32_mod4. do 3 f_equal. lia.
Qed.

Lemma encode_channels_mod_256_witness :
  (exists header, length header = 54%nat /\
    map byte_val (write_image [[mkPixel 300 (-1) 7]]) = header ++
      concat (map (fun row =>
        concat (map (fun p => [blue p mod 256; green p mod 256; red p mod 256]) row) ++
        replicate (Z.to_nat ((- (3 * Z.of_nat (length ([[mkPixel 300 (-1) 7]] !!! 0%nat)))) mod 4)) 0)
        (rev [[mkPixel 300 (-1) 7]]))) /\
  write_image [[mkPixel 256 0 0]] !! 56%nat = Some Byte.x00.
Proof.
  apply (encode_channels_mod_256 [[mkPixel 300 (-1) 7]]).
  unfold wf_grid, grid_shape. simpl.
  split; [discriminate|]. split; [split; [reflexivity|]|split; lia].
  intros i Hi. destruct i as [|i]; [reflexivity|lia].
Defined.

(** C1 (amended): decoding the bytes the encoder writes for a non-empty
    rectangular image whose channels are in [0, 255] gives the image back,
    provided the file size [54 + (3W + padding) * H] fits in an [int]. *)
Theorem codec_round_trip (g : grid) :
  let W := Z.of_nat (length (g !!! 0%nat)) in
  let H := Z.of_nat (length g) in
  wf_grid g -> Forall (Forall channel_range) g ->
  54 + (3 * W + (- (3 * W)) mod 4) * H < 2 ^ 31 ->
  read_image (write_image g) = Some g.
Proof.
  intros W H Hwf Hch Hb.
  pose proof Hwf as (Hne & Hsh & HH & HW).
  rewrite (write_image_split g Hwf). cbv zeta.
  fold W H. subst W H.
  set (Wn := length (g !!! 0%nat)) in *. set (Hn := length g) in *.
  replace (Z.of_nat Wn * 3) with (3 * Z.of_nat Wn) by lia.
  set (pad := (- (3 * Z.of_nat Wn)) mod 4) in *.
  assert (Hpad : 0 <= pad < 4) by (apply Z.mod_pos_bound; lia).
  assert (Hn1 : (1 <= Hn)%nat) by (unfold Hn; destruct g; [done|simpl; lia]).
  assert (HX : 3 * Z.of_nat Wn + pad <= (3 * Z.of_nat Wn + pad) * Z.of_nat Hn) by nia.
  rewrite (wrap32_id (3 * Z.of_nat Wn)) by int_lia.
  rewrite write_padding_mod. fold pad.
  rewrite (wrap32_id (3 * Z.of_nat Wn + pad)) by int_lia.
  rewrite (wrap32_id ((3 * Z.of_nat Wn + pad) * Z.of_nat Hn)) by int_lia.
  set (AB := (3 * Z.of_nat Wn + pad) * Z.of_nat Hn) in *.
  set (body := concat (map (row_bytes pad) (rev g))).
  destruct (header_fields AB (Z.of_nat Wn) (Z.of_nat Hn) body) as (D2 & D10 & D18 & D22 & D28).
  set (l := bmp_header AB ++ dib_header (Z.of_nat Wn) (Z.of_nat Hn) AB ++ body) in *.
  rewrite (wrap32_id (14 + 40 + AB)) in D2 by int_lia.
  unfold read_image, open_stream.
  rewrite (get_int_le4 l _ 2 0 (14 + 40 + AB) ltac:(lia) ltac:(int_lia) D2).
  cbv beta iota zeta.
  rewrite (get_int_le4 l _ 10 _ 54 ltac:(lia) ltac:(int_lia) D10).
  cbv beta iota zeta.
  rewrite (get_int_le4 l _ 18 _ (Z.of_nat Wn) ltac:(lia) ltac:(int_lia) D18).
  cbv beta iota zeta.
  rewrite (get_int_le4 l _ 22 _ (Z.of_nat Hn) ltac:(lia) ltac:(int_lia) D22).
  cbv beta iota zeta.
  rewrite (get_int_le2 l _ 28 _ 24 ltac:(lia) ltac:(lia) D28).
  cbv beta iota zeta.
  change (Z.quot 24 8) with 3.
  replace (Z.of_nat Wn * 3) with (3 * Z.of_nat Wn) by lia.
  rewrite (wrap32_id (3 * Z.of_nat Wn)) by int_lia.
  rewrite read_padding_mod by lia. fold pad.
  rewrite (wrap32_id (3 * Z.of_nat Wn + pad)) by int_lia.
  rewrite (wrap32_id ((3 * Z.of_nat Wn + pad) * Z.of_nat Hn)) by int_lia.
  fold AB. rewrite (wrap32_id (54 + AB)) by int_lia.
  replace (14 + 40 + AB) with (54 + AB) by lia. rewrite Z.eqb_refl. cbn [negb].
  rewrite new_vector_nat. simpl. rewrite new_vector_nat. simpl.
  destruct (loop_down _ _ _) as [[s' pos'] img'] eqn:E.
  f_equal. apply (read_rows_ok l g Wn pad 54 _ s' pos' img' Hsh Hch) in E;
    [done|lia|lia|lia|int_lia|].
  change (Z.to_nat 54) with (length (bmp_header AB ++ dib_header (Z.of_nat Wn) (Z.of_nat Hn) AB)).
  unfold l. rewrite app_assoc. apply drop_app_length.
Qed.

Lemma codec_round_trip_witness :
  read_image (write_image [[mkPixel 1 2 3; mkPixel 250 0 7]; [mkPixel 9 8 7; mkPixel 0 255 128]]) =
    Some [[mkPixel 1 2 3; mkPixel 250 0 7]; [mkPixel 9 8 7; mkPixel 0 255 128]].
Proof.
  apply (codec_round_trip [[mkPixel 1 2 3; mkPixel 250 0 7]; [mkPixel 9 8 7; mkPixel 0 255 128]]).
  - unfold wf_grid, grid_shape. simpl.
    split; [discriminate|]. split; [split; [reflexivity|]|split; lia].
    intros i Hi. destruct i as [|[|i]]; [reflexivity|reflexivity|lia].
  - repeat constructor; unfold channel_range; simpl; lia.
  - vm_compute. reflexivity.
Defined.

(** C1: an image one row high and [715827883] pixels wide satisfies the
    hypotheses of the claim, but [3 * 715827883] overflows [int]: the encoder
    and the decoder compute different row paddings (3 and 7), the size check
    of [read_image] fails, and decoding gives the empty image. *)
Lemma round_trip_wide_row :
  let g := [replicate (Z.to_nat 715827883) default_pixel] in
  wf_grid g /\ Forall (Forall channel_range) g /\
  read_image (write_image g) = Some [] /\ read_image (write_image g) <> Some g.
Proof.
  assert (Hn : Z.of_nat (Z.to_nat 715827883) = 715827883) by (apply Z2Nat.id; lia).
  generalize (Z.to_nat 715827883) Hn. clear Hn. intros n Hn g.
  assert (Hwf : wf_grid g).
  { unfold wf_grid, grid_shape, g. cbn [length lookup_total list_lookup_total].
    split; [discriminate|]. split; [split; [reflexivity|]|].
    { intros i Hi. destruct i as [|i]; [reflexivity|simpl in Hi; lia]. }
    rewrite length_replicate. simpl. split; int_lia. }
  assert (Hrd : read_image (write_image g) = Some []).
  { rewrite (write_image_split g Hwf). cbv zeta.
    unfold g at 1 2 3 4. cbn [length lookup_total list_lookup_total].
    rewrite length_replicate, Hn.
    generalize (concat (map (row_bytes (write_padding (wrap32 (715827883 * 3)))) (rev g))).
    intros body. vm_compute. reflexivity. }
  split; [done|]. split.
  { constructor; [|constructor]. apply Forall_replicate.
    unfold channel_range; simpl; lia. }
  split; [done|]. rewrite Hrd. unfold g. discriminate.
Qed.

(** C2: the size check of [read_image] is computed on [int]s, so it can pass
    when the header's sizes do not add up. A header with file size 54, pixel
    array at 54, width 1 and height [2^30] (4 bytes per row) fails the check
    as the specification states it, since [54 <> 54 + 4 * 2^30], yet decoding
    gives a non-empty image. A header whose height field is FF FF FF FF also
    fails it, but decoding ends in the allocation of a vector of size -1,
    which throws: [None]. *)
Lemma size_check_overflow :
  spec_size_ok header_height_2_30 = false /\
  (exists g', read_image header_height_2_30 = Some g' /\ g' <> []) /\
  spec_size_ok header_height_ffffffff = false /\
  read_image header_height_ffffffff = None.
Proof.
  split; [vm_compute; reflexivity|].
  split; [|split; vm_compute; reflexivity].
  unfold read_image, open_stream. cbv zeta.
  assert (E1 : get_int (mkStream header_height_2_30 0 false) 2 4 =
               (54, mkStream header_height_2_30 6 false)) by (vm_compute; reflexivity).
  rewrite E1. cbv beta iota zeta.
  assert (E2 : get_int (mkStream header_height_2_30 6 false) 10 4 =
               (54, mkStream header_height_2_30 14 false)) by (vm_compute; reflexivity).
  rewrite E2. cbv beta iota zeta.
  assert (E3 : get_int (mkStream header_height_2_30 14 false) 18 4 =
               (1, mkStream header_height_2_30 22 false)) by (vm_compute; reflexivity).
  rewrite E3. cbv beta iota zeta.
  assert (E4 : get_int (mkStream header_height_2_30 22 false) 22 4 =
               (1073741824, mkStream header_height_2_30 26 false)) by (vm_compute; reflexivity).
  rewrite E4. cbv beta iota zeta.
  assert (E5 : get_int (mkStream header_height_2_30 26 false) 28 2 =
               (24, mkStream header_height_2_30 30 false)) by (vm_compute; reflexivity).
  rewrite E5. cbv beta iota zeta.
  match goal with |- context [negb ?c] => let v := eval vm_compute in c in change c with v end.
  cbn [negb].
  change (new_vector 1 default_pixel) with (new_vector (Z.of_nat 1) default_pixel).
  rewrite new_vector_nat, bind_Some. cbv beta.
  assert (Hn : Z.of_nat (Z.to_nat 1073741824) = 1073741824) by (apply Z2Nat.id; lia).
  rewrite <- Hn. revert Hn. generalize (Z.to_nat 1073741824) as n. intros n Hn.
  rewrite new_vector_nat, bind_Some. cbv beta.
  match goal with |- context [loop_down ?h (read_row ?w ?b ?p) ?st] =>
    pose proof (read_rows_length h w b p st) as HL;
    destruct (loop_down h (read_row w b p) st) as [[s' pos'] img'] eqn:E end.
  cbn [snd] in HL. rewrite length_replicate in HL.
  exists img'. split; [reflexivity|]. intros ->.
  simpl in HL. subst n. discriminate.
Qed.

(** C2 (amended): when the header fields, read as unsigned little-endian
    numbers, are below [2^31], and so are bytes per row + padding and
    pixel-array offset + (bytes per row + padding) * height, a file whose
    file-size field differs from that sum decodes to the empty image; so
    decoding gives a non-empty image only if the two are equal. *)
Theorem decode_size_check (l : list Byte.byte) :
  let file_size := le_field l 2 4 in
  let start := le_field l 10 4 in
  let width := le_field l 18 4 in
  let height := le_field l 22 4 in
  let row_size := width * (le_field l 28 2 / 8) in
  let padding := (- row_size) mod 4 in
  (30 <= length l)%nat ->
  file_size < 2 ^ 31 -> start < 2 ^ 31 -> width < 2 ^ 31 -> height < 2 ^ 31 ->
  row_size + padding < 2 ^ 31 -> start + (row_size + padding) * height < 2 ^ 31 ->
  (spec_size_ok l = false -> read_image l = Some []) /\
  (forall g', read_image l = Some g' -> g' <> [] -> spec_size_ok l = true).
Proof.
  intros FS ST WD HT RS PD Hlen HFS HST HWD HHT HR HB.
  enough (E : spec_size_ok l = false -> read_image l = Some []).
  { split; [done|]. intros g' Hg Hne.
    destruct (spec_size_ok l) eqn:Hs; [done|]. rewrite E in Hg by done. congruence. }
  intros Hs. unfold spec_size_ok in Hs. cbv zeta in Hs.
  change ((FS =? ST + (RS + PD) * HT) = false) in Hs.
  pose proof (le_field_range l 2 4). pose proof (le_field_range l 10 4).
  pose proof (le_field_range l 18 4). pose proof (le_field_range l 22 4).
  pose proof (le_field_range l 28 2). pose proof (le_field2_bound l 28).
  assert (HPD : 0 <= PD < 4) by (apply Z.mod_pos_bound; lia).
  assert (HRS : 0 <= RS) by (apply Z.mul_nonneg_nonneg; [lia|apply Z.div_pos; lia]).
  assert (HP : 0 <= (RS + PD) * HT) by (apply Z.mul_nonneg_nonneg; lia).
  unfold read_image, open_stream. cbv zeta.
  rewrite (get_int_field4 l 2 0 ltac:(lia) ltac:(cbn; lia) HFS). cbv beta iota zeta.
  rewrite (get_int_field4 l 10 _ ltac:(lia) ltac:(cbn; lia) HST). cbv beta iota zeta.
  rewrite (get_int_field4 l 18 _ ltac:(lia) ltac:(cbn; lia) HWD). cbv beta iota zeta.
  rewrite (get_int_field4 l 22 _ ltac:(lia) ltac:(cbn; lia) HHT). cbv beta iota zeta.
  rewrite (get_int_field2 l 28 _ ltac:(lia) ltac:(cbn; lia)). cbv beta iota zeta.
  change (le_field l (Z.to_nat 2) 4) with FS. change (le_field l (Z.to_nat 10) 4) with ST.
  change (le_field l (Z.to_nat 18) 4) with WD. change (le_field l (Z.to_nat 22) 4) with HT.
  change (le_field l (Z.to_nat 28) 2) with (le_field l 28 2).
  rewrite Z.quot_div_nonneg by lia. change (WD * (le_field l 28 2 / 8)) with RS.
  rewrite (wrap32_id RS) by int_lia.
  rewrite read_padding_mod by lia. change ((- RS) mod 4) with PD.
  rewrite (wrap32_id (RS + PD)) by int_lia.
  rewrite (wrap32_id ((RS + PD) * HT)) by int_lia.
  rewrite (wrap32_id (ST + (RS + PD) * HT)) by int_lia.
  rewrite Hs. reflexivity.
Qed.

Lemma decode_size_check_witness :
  (spec_size_ok (write_image [[mkPixel 1 2 3]]) = false ->
   read_image (write_image [[mkPixel 1 2 3]]) = Some []) /\
  (forall g', read_image (write_image [[mkPixel 1 2 3]]) = Some g' -> g' <> [] ->
   spec_size_ok (write_image [[mkPixel 1 2 3]]) = true).
Proof.
  apply (decode_size_check (write_image [[mkPixel 1 2 3]]));
    vm_compute; first [reflexivity | lia].
Defined.

(** ** Further properties of the code *)

(** *** Integer fields written by [set_bytes] and read by [get_int] *)

Lemma wrap32_add_mul (z k : Z) : wrap32 (z + k * 2 ^ 32) = wrap32 z.
Proof.
  unfold wrap32. replace (z + k * 2 ^ 32 + 2 ^ 31) with (z + 2 ^ 31 + k * 2 ^ 32) by lia.
  by rewrite Z.mod_add by lia.
Qed.

Lemma wrap32_add_wrap (x y : Z) : wrap32 (x + wrap32 y) = wrap32 (x + y).
Proof.
  unfold wrap32 at 2. rewrite (Z.mod_eq (y + 2 ^ 31) (2 ^ 32)) by lia.
  replace (x + (y + 2 ^ 31 - 2 ^ 32 * ((y + 2 ^ 31) / 2 ^ 32) - 2 ^ 31))
    with (x + y + (- ((y + 2 ^ 31) / 2 ^ 32)) * 2 ^ 32) by lia.
  apply wrap32_add_mul.
Qed.

(** [set_bytes(arr, off, 4, v)] replaces the four bytes at [off] and keeps
    the others. *)
Lemma set_bytes4_drop (arr : list Byte.byte) (off v : Z) :
  0 <= off -> (Z.to_nat off + 4 <= length arr)%nat ->
  drop (Z.to_nat off) (set_bytes arr off 4 v) =
    le_bytes4 v ++ drop (Z.to_nat off + 4) arr.
Proof.
  intros Ho Hl. unfold set_bytes, loop. simpl.
  rewrite !Z2Nat.inj_add by lia. simpl.
  apply list_eq. intros i. rewrite lookup_drop.
  rewrite !list_lookup_insert.
  rewrite !length_insert.
  destruct i as [|[|[|[|i]]]]; simpl; repeat case_decide; try lia; try reflexivity.
  rewrite lookup_drop. f_equal. lia.
Qed.

Lemma set_bytes2_drop (arr : list Byte.byte) (off v : Z) :
  0 <= off -> (Z.to_nat off + 2 <= length arr)%nat ->
  drop (Z.to_nat off) (set_bytes arr off 2 v) =
    [to_byte (Z.shiftr v 0); to_byte (Z.shiftr v 8)] ++ drop (Z.to_nat off + 2) arr.
Proof.
  intros Ho Hl. unfold set_bytes, loop. simpl.
  rewrite !Z2Nat.inj_add by lia. simpl.
  apply list_eq. intros i. rewrite lookup_drop.
  rewrite !list_lookup_insert.
  rewrite !length_insert.
  destruct i as [|[|i]]; simpl; repeat case_decide; try lia; try reflexivity.
  rewrite lookup_drop. f_equal. lia.
Qed.

(** [get_int] on the four bytes [set_bytes] writes for any [int]. *)
Lemma get_int_le4_int (l rest : list Byte.byte) (off p v : Z) :
  0 <= off -> - 2 ^ 31 <= v < 2 ^ 31 -> drop (Z.to_nat off) l = le_bytes4 v ++ rest ->
  get_int (mkStream l p false) off 4 = (v, mkStream l (off + 1 + 1 + 1 + 1) false).
Proof.
  intros Ho Hv Hd. unfold le_bytes4 in Hd. simpl in Hd.
  destruct (get_step _ _ _ _ Ho Hd) as [G0 D0].
  destruct (get_step _ _ (off + 1) _ ltac:(lia) D0) as [G1 D1].
  destruct (get_step _ _ (off + 1 + 1) _ ltac:(lia) D1) as [G2 D2].
  destruct (get_step _ _ (off + 1 + 1 + 1) _ ltac:(lia) D2) as [G3 D3].
  unfold get_int, loop. simpl. rewrite seekg_ok by done.
  rewrite G0. simpl. rewrite G1. simpl. rewrite G2. simpl. rewrite G3. simpl.
  rewrite !to_byte_val, !Z.shiftr_div_pow2 by lia.
  change (2 ^ 0) with 1. change (2 ^ 8) with 256.
  change (2 ^ 16) with 65536. change (2 ^ 24) with 16777216.
  rewrite Z.div_1_r.
  assert (E2 : v / 65536 = v / 256 / 256) by (rewrite Z.div_div by lia; reflexivity).
  assert (E3 : v / 16777216 = v / 256 / 256 / 256) by (rewrite !Z.div_div by lia; reflexivity).
  rewrite E2, E3.
  pose proof (Z.div_mod v 256 ltac:(lia)) as M0.
  pose proof (Z.div_mod (v / 256) 256 ltac:(lia)) as M1.
  pose proof (Z.div_mod (v / 256 / 256) 256 ltac:(lia)) as M2.
  pose proof (Z.div_mod (v / 256 / 256 / 256) 256 ltac:(lia)) as M3.
  pose proof (Z.mod_pos_bound v 256 ltac:(lia)) as B0.
  pose proof (Z.mod_pos_bound (v / 256) 256 ltac:(lia)) as B1.
  pose proof (Z.mod_pos_bound (v / 256 / 256) 256 ltac:(lia)) as B2.
  pose proof (Z.mod_pos_bound (v / 256 / 256 / 256) 256 ltac:(lia)) as B3.
  unwrap. rewrite wrap32_add_wrap.
  match goal with |- (wrap32 ?e, _) = _ =>
    replace e with (v + (- (v / 256 / 256 / 256 / 256)) * 2 ^ 32) by lia end.
  rewrite wrap32_add_mul, wrap32_id by done. reflexivity.
Qed.

(** [get_int] on the two bytes [set_bytes] writes for a 2-byte field. *)
Lemma get_int_le2_any (l rest : list Byte.byte) (off p v : Z) :
  0 <= off ->
  drop (Z.to_nat off) l = [to_byte (Z.shiftr v 0); to_byte (Z.shiftr v 8)] ++ rest ->
  get_int (mkStream l p false) off 2 = (v mod 65536, mkStream l (off + 1 + 1) false).
Proof.
  intros Ho Hd. simpl in Hd.
  destruct (get_step _ _ _ _ Ho Hd) as [G0 D0].
  destruct (get_step _ _ (off + 1) _ ltac:(lia) D0) as [G1 D1].
  unfold get_int, loop. simpl. rewrite seekg_ok by done.
  rewrite G0. simpl. rewrite G1. simpl.
  rewrite !to_byte_val, !Z.shiftr_div_pow2 by lia.
  change (2 ^ 0) with 1. change (2 ^ 8) with 256. rewrite Z.div_1_r.
  pose proof (Z.div_mod v 256 ltac:(lia)) as M0.
  pose proof (Z.div_mod (v / 256) 256 ltac:(lia)) as M1.
  pose proof (Z.div_mod v 65536 ltac:(lia)) as M.
  assert (E : v / 65536 = v / 256 / 256) by (rewrite Z.div_div by lia; reflexivity).
  pose proof (Z.mod_pos_bound v 256 ltac:(lia)) as B0.
  pose proof (Z.mod_pos_bound (v / 256) 256 ltac:(lia)) as B1.
  pose proof (Z.mod_pos_bound v 65536 ltac:(lia)) as B.
  unwrap. f_equal. lia.
Qed.

(** X1: [set_bytes] followed by [get_int] on a 4-byte field gives back the
    [int] value written, whatever its sign. *)
Theorem set_bytes_get_int4 (arr : list Byte.byte) (off p v : Z) :
  0 <= off -> (Z.to_nat off + 4 <= length arr)%nat -> - 2 ^ 31 <= v < 2 ^ 31 ->
  get_int (mkStream (set_bytes arr off 4 v) p false) off 4 =
    (v, mkStream (set_bytes arr off 4 v) (off + 1 + 1 + 1 + 1) false).
Proof.
  intros Ho Hl Hv. apply (get_int_le4_int _ (drop (Z.to_nat off + 4) arr)); [done|done|].
  by apply set_bytes4_drop.
Qed.

Lemma set_bytes_get_int4_witness :
  get_int (mkStream (set_bytes (replicate 6 Byte.x00) 1 4 (-2)) 0 false) 1 4 =
    (-2, mkStream (set_bytes (replicate 6 Byte.x00) 1 4 (-2)) (1 + 1 + 1 + 1 + 1) false).
Proof. apply (set_bytes_get_int4 (replicate 6 Byte.x00) 1 0 (-2)); simpl; lia. Defined.

(** X2: [set_bytes] followed by [get_int] on a 2-byte field gives back the
    value written modulo [2^16]: the low 16 bits, read as unsigned. *)
Theorem set_bytes_get_int2 (arr : list Byte.byte) (off p v : Z) :
  0 <= off -> (Z.to_nat off + 2 <= length arr)%nat ->
  get_int (mkStream (set_bytes arr off 2 v) p false) off 2 =
    (v mod 65536, mkStream (set_bytes arr off 2 v) (off + 1 + 1) false).
Proof.
  intros Ho Hl. apply (get_int_le2_any _ (drop (Z.to_nat off + 2) arr)); [done|].
  by apply set_bytes2_drop.
Qed.

Lemma set_bytes_get_int2_witness :
  get_int (mkStream (set_bytes (replicate 2 Byte.x00) 0 2 (-1)) 0 false) 0 2 =
    ((-1) mod 65536, mkStream (set_bytes (replicate 2 Byte.x00) 0 2 (-1)) (0 + 1 + 1) false).
Proof. apply (set_bytes_get_int2 (replicate 2 Byte.x00) 0 0 (-1)); simpl; lia. Defined.

(** *** The file [write_image] produces *)

Lemma length_row_bytes (padding_bytes : Z) (row : list Pixel) :
  length (row_bytes padding_bytes row) = (3 * length row + Z.to_nat padding_bytes)%nat.
Proof.
  unfold row_bytes. rewrite length_app, length_replicate. f_equal.
  induction row as [|p row IH]; simpl; [done|]. rewrite IH. lia.
Qed.

Lemma length_rows (padding_bytes : Z) (rows : grid) (W : nat) :
  Forall (fun row => length row = W) rows ->
  length (concat (map (row_bytes padding_bytes) rows)) =
    (length rows * (3 * W + Z.to_nat padding_bytes))%nat.
Proof.
  induction 1 as [|row rows Hr _ IH]; simpl; [done|].
  rewrite length_app, length_row_bytes, IH, Hr. lia.
Qed.

(** A 4-byte field holding the bytes [set_bytes] writes for [v], read as
    an unsigned little-endian number. *)
Lemma le_field_le_bytes4 (l rest : list Byte.byte) (off : nat) (v : Z) :
  drop off l = le_bytes4 v ++ rest -> 0 <= v < 2 ^ 32 -> le_field l off 4 = v.
Proof.
  intros Hd Hv. unfold le_field. rewrite Hd. unfold le_bytes4. simpl.
  rewrite !to_byte_val, !Z.shiftr_div_pow2 by lia.
  change (2 ^ 0) with 1. change (2 ^ 8) with 256.
  change (2 ^ 16) with 65536. change (2 ^ 24) with 16777216.
  rewrite Z.div_1_r.
  assert (E2 : v / 65536 = v / 256 / 256) by (rewrite Z.div_div by lia; reflexivity).
  assert (E3 : v / 16777216 = v / 256 / 256 / 256) by (rewrite !Z.div_div by lia; reflexivity).
  rewrite E2, E3.
  pose proof (Z.div_mod v 256 ltac:(lia)) as M0.
  pose proof (Z.div_mod (v / 256) 256 ltac:(lia)) as M1.
  pose proof (Z.div_mod (v / 256 / 256) 256 ltac:(lia)) as M2.
  pose proof (Z.mod_pos_bound v 256 ltac:(lia)) as B0.
  pose proof (Z.mod_pos_bound (v / 256) 256 ltac:(lia)) as B1.
  pose proof (Z.mod_pos_bound (v / 256 / 256) 256 ltac:(lia)) as B2.
  assert (B3 : 0 <= v / 256 / 256 / 256 < 256).
  { rewrite !Z.div_div by lia. split; [apply Z.div_pos; lia|].
    apply Z.div_lt_upper_bound; lia. }
  rewrite (Z.mod_small (v / 256 / 256 / 256)) by lia. lia.
Qed.

(** X3: for a non-empty rectangular image of height [H] and width [W] whose
    file size [54 + (3W + pad) * H] fits in an [int] ([pad] the row padding
    to a multiple of 4 bytes), [write_image] writes exactly that many bytes:
    the signature [BM], the file size, pixel-array offset 54, DIB header size
    40, width [W], height [H], one colour plane, 24 bits per pixel and the
    pixel-array size [(3W + pad) * H]. *)
Theorem write_image_layout (g : grid) :
  wf_grid g ->
  let W := Z.of_nat (length (g !!! 0%nat)) in
  let H := Z.of_nat (length g) in
  let pad := (- (3 * W)) mod 4 in
  54 + (3 * W + pad) * H < 2 ^ 31 ->
  Z.of_nat (length (write_image g)) = 54 + (3 * W + pad) * H /\
  take 2 (write_image g) = [Byte.x42; Byte.x4d] /\
  le_field (write_image g) 2 4 = 54 + (3 * W + pad) * H /\
  le_field (write_image g) 10 4 = 54 /\
  le_field (write_image g) 14 4 = 40 /\
  le_field (write_image g) 18 4 = W /\
  le_field (write_image g) 22 4 = H /\
  le_field (write_image g) 26 2 = 1 /\
  le_field (write_image g) 28 2 = 24 /\
  le_field (write_image g) 34 4 = (3 * W + pad) * H.
Proof.
  intros Hwf W H pad Hs. pose proof Hwf as (Hne & Hsh & HH & HW).
  assert (H1 : 1 <= H) by (destruct g; [done|unfold H; simpl; lia]).
  assert (Hp : 0 <= pad < 4) by (apply Z.mod_pos_bound; lia).
  assert (Hrow : 3 * W + pad <= (3 * W + pad) * H) by nia.
  assert (Hpad : write_padding (wrap32 (W * 3)) = pad).
  { rewrite wrap32_id by int_lia. rewrite write_padding_mod. unfold pad. f_equal. lia. }
  assert (Hab : wrap32 (wrap32 (wrap32 (W * 3) + pad) * H) = (3 * W + pad) * H).
  { rewrite (wrap32_id (W * 3)) by int_lia.
    rewrite (wrap32_id (W * 3 + pad)) by int_lia.
    rewrite wrap32_id by int_lia. f_equal. lia. }
  pose proof (write_image_split g Hwf) as E. cbv zeta in E. fold W H in E.
  rewrite Hpad, Hab in E. rewrite E. clear E.
  set (AB := (3 * W + pad) * H) in *.
  set (body := concat (map (row_bytes pad) (rev g))).
  destruct (header_fields AB W H body) as (D2 & D10 & D18 & D22 & D28).
  rewrite (wrap32_id (14 + 40 + AB)) in D2 by int_lia.
  assert (D14 : drop 14 (bmp_header AB ++ dib_header W H AB ++ body) =
                le_bytes4 40 ++ drop 18 (bmp_header AB ++ dib_header W H AB ++ body))
    by reflexivity.
  assert (D26 : drop 26 (bmp_header AB ++ dib_header W H AB ++ body) =
                [to_byte (Z.shiftr 1 0); to_byte (Z.shiftr 1 8)] ++
                drop 28 (bmp_header AB ++ dib_header W H AB ++ body))
    by reflexivity.
  assert (D34 : drop 34 (bmp_header AB ++ dib_header W H AB ++ body) =
                le_bytes4 AB ++ drop 38 (bmp_header AB ++ dib_header W H AB ++ body))
    by reflexivity.
  split.
  { rewrite !length_app, length_bmp_header, length_dib_header.
    unfold body. rewrite (length_rows _ _ (length (g !!! 0%nat))).
    - rewrite length_rev, !Nat2Z.inj_add, !Nat2Z.inj_mul, Nat2Z.inj_add, Z2Nat.id by lia.
      unfold AB, W, H. lia.
    - apply Forall_rev, Forall_lookup_2. intros i x Hx.
      pose proof (lookup_lt_Some _ _ _ Hx) as Hi.
      apply list_lookup_total_correct in Hx. subst x. by apply (proj2 Hsh). }
  split; [reflexivity|].
  split; [apply (le_field_le_bytes4 _ _ _ _ D2); int_lia|].
  split; [apply (le_field_le_bytes4 _ _ _ _ D10); lia|].
  split; [apply (le_field_le_bytes4 _ _ _ _ D14); lia|].
  split; [apply (le_field_le_bytes4 _ _ _ _ D18); int_lia|].
  split; [apply (le_field_le_bytes4 _ _ _ _ D22); int_lia|].
  split; [unfold le_field; rewrite D26; reflexivity|].
  split; [unfold le_field; rewrite D28; reflexivity|].
  apply (le_field_le_bytes4 _ _ _ _ D34). unfold AB in *. int_lia.
Qed.

Lemma write_image_layout_witness :
  let g := [[mkPixel 1 2 3; mkPixel 4 5 6]] in
  let W := Z.of_nat (length (g !!! 0%nat)) in
  let H := Z.of_nat (length g) in
  let pad := (- (3 * W)) mod 4 in
  Z.of_nat (length (write_image g)) = 54 + (3 * W + pad) * H /\
  take 2 (write_image g) = [Byte.x42; Byte.x4d] /\
  le_field (write_image g) 2 4 = 54 + (3 * W + pad) * H /\
  le_field (write_image g) 10 4 = 54 /\
  le_field (write_image g) 14 4 = 40 /\
  le_field (write_image g) 18 4 = W /\
  le_field (write_image g) 22 4 = H /\
  le_field (write_image g) 26 2 = 1 /\
  le_field (write_image g) 28 2 = 24 /\
  le_field (write_image g) 34 4 = (3 * W + pad) * H.
Proof.
  intros g W H pad. apply (write_image_layout g).
  - unfold wf_grid, grid_shape. simpl.
    split; [discriminate|]. split; [split; [reflexivity|]|split; lia].
    intros i Hi. destruct i as [|i]; [reflexivity|lia].
  - vm_compute. reflexivity.
Defined.

(** *** Short files *)

(** X4: a file of at most two bytes (in particular an empty file) decodes
    to the empty image: every header read hits the end of the file, and the
    size check fails. *)
Theorem read_image_short (l : list Byte.byte) :
  (length l <= 2)%nat -> read_image l = Some [].
Proof.
  intros Hl. destruct l as [|a [|b [|c l]]]; simpl in Hl; try lia;
    vm_compute; reflexivity.
Qed.

Lemma read_image_short_witness : read_image [Byte.x42; Byte.x4d] = Some [].
Proof. apply read_image_short. simpl. lia. Defined.

(** *** Idempotent transforms *)

(** A per-pixel transform whose body is idempotent on the pixels of its
    output gives back its output. *)
Lemma pixelwise_idem (f : Pixel -> Pixel) (g : grid) :
  wf_grid g ->
  (forall r c, (r < length g)%nat -> (c < length (g !!! 0%nat))%nat ->
     f (f ((g !!! r) !!! c)) = f ((g !!! r) !!! c)) ->
  exists g', pixelwise f g = Some g' /\ grid_shape g' (length g) (length (g !!! 0%nat)) /\
    (forall r c, (r < length g)%nat -> (c < length (g !!! 0%nat))%nat ->
      (g' !!! r) !!! c = f ((g !!! r) !!! c)) /\
    pixelwise f g' = Some g'.
Proof.
  intros Hwf Hf. pose proof Hwf as (Hne & Hsh & HH & HW).
  destruct (pixelwise_spec f g Hwf) as (g' & Hg' & [Hl' Hr'] & Hv).
  exists g'. split; [done|]. split; [done|]. split; [done|].
  assert (H1 : (0 < length g)%nat) by (destruct g; [done|simpl; lia]).
  assert (Hw' : length (g' !!! 0%nat) = length (g !!! 0%nat)) by (apply Hr'; lia).
  assert (Hwf' : wf_grid g').
  { split; [intros ->; simpl in Hl'; lia|].
    rewrite Hl', Hw'. split; [by split|]. lia. }
  destruct (pixelwise_spec f g' Hwf') as (g'' & Hg'' & Hs'' & Hv'').
  rewrite Hg''. f_equal. rewrite Hl', Hw' in Hs'', Hv''.
  apply (grid_eq _ _ _ _ Hs'' (conj Hl' Hr')). intros r c Hr Hc.
  rewrite Hv'', !Hv by done. by apply Hf.
Qed.

(** X5: on a non-empty rectangular image, [process_7] returns an image of
    the same size whose pixels are all white (255, 255, 255) or black
    (0, 0, 0), and applying [process_7] to that image gives it back. *)
Theorem high_contrast_idempotent (g : grid) :
  wf_grid g ->
  exists g', process_7 g = Some g' /\ grid_shape g' (length g) (length (g !!! 0%nat)) /\
    (forall r c, (r < length g)%nat -> (c < length (g !!! 0%nat))%nat ->
      (g' !!! r) !!! c = mkPixel 255 255 255 \/ (g' !!! r) !!! c = mkPixel 0 0 0) /\
    process_7 g' = Some g'.
Proof.
  intros Hwf. unfold process_7.
  destruct (pixelwise_idem contrast_pixel g Hwf) as (g' & Hg' & Hs & Hv & Hi).
  { intros r c _ _.
    assert (E : contrast_pixel ((g !!! r) !!! c) = mkPixel 255 255 255 \/
                contrast_pixel ((g !!! r) !!! c) = mkPixel 0 0 0)
      by (unfold contrast_pixel; destruct (_ <=? _); [left|right]; reflexivity).
    destruct E as [E|E]; rewrite E; reflexivity. }
  exists g'. split; [done|]. split; [done|]. split; [|done].
  intros r c Hr Hc. rewrite Hv by done. unfold contrast_pixel.
  destruct (Z.quot 255 2 <=? _); [left|right]; reflexivity.
Qed.

Lemma high_contrast_idempotent_witness :
  exists g', process_7 [[mkPixel 200 10 10; mkPixel 255 255 0]] = Some g' /\
    grid_shape g' 1 2 /\
    (forall r c, (r < 1)%nat -> (c < 2)%nat ->
      (g' !!! r) !!! c = mkPixel 255 255 255 \/ (g' !!! r) !!! c = mkPixel 0 0 0) /\
    process_7 g' = Some g'.
Proof.
  apply (high_contrast_idempotent [[mkPixel 200 10 10; mkPixel 255 255 0]]).
  unfold wf_grid, grid_shape. simpl.
  split; [discriminate|]. split; [split; [reflexivity|]|split; lia].
  intros i Hi. destruct i as [|i]; [reflexivity|lia].
Defined.

(** X6: on a non-empty rectangular image, applying [process_10] to its own
    output gives that output back: every pixel it produces is one of the
    five colours, and each of them is classified as itself. *)
Theorem posterize_idempotent (g : grid) :
  wf_grid g ->
  exists g', process_10 g = Some g' /\ grid_shape g' (length g) (length (g !!! 0%nat)) /\
    process_10 g' = Some g'.
Proof.
  intros Hwf. unfold process_10.
  destruct (pixelwise_idem posterize_pixel g Hwf) as (g' & Hg' & Hs & _ & Hi).
  { intros r c _ _.
    assert (E : let q := posterize_pixel ((g !!! r) !!! c) in
      q = mkPixel 255 255 255 \/ q = mkPixel 0 0 0 \/ q = mkPixel 255 0 0 \/
      q = mkPixel 0 255 0 \/ q = mkPixel 0 0 255).
    { unfold posterize_pixel. simpl.
      destruct (550 <=? _); [tauto|]. destruct (_ <=? 150); [tauto|].
      destruct (_ =? _); [tauto|]. destruct (_ =? _); tauto. }
    simpl in E. destruct E as [E|[E|[E|[E|E]]]]; rewrite E; reflexivity. }
  by exists g'.
Qed.

Lemma posterize_idempotent_witness :
  exists g', process_10 [[mkPixel 200 10 10; mkPixel 10 20 200]] = Some g' /\
    grid_shape g' 1 2 /\ process_10 g' = Some g'.
Proof.
  apply (posterize_idempotent [[mkPixel 200 10 10; mkPixel 10 20 200]]).
  unfold wf_grid, grid_shape. simpl.
  split; [discriminate|]. split; [split; [reflexivity|]|split; lia].
  intros i Hi. destruct i as [|i]; [reflexivity|lia].
Defined.

(** X7: on a non-empty rectangular image with channels in [0, 255],
    [process_3] returns an image of the same size whose pixels are gray
    (three equal channels in [0, 255]), and applying [process_3] to that
    image gives it back. *)
Theorem grayscale_idempotent (g : grid) :
  wf_grid g -> Forall (Forall channel_range) g ->
  exists g', process_3 g = Some g' /\ grid_shape g' (length g) (length (g !!! 0%nat)) /\
    (forall r c, (r < length g)%nat -> (c < length (g !!! 0%nat))%nat ->
      let q := (g' !!! r) !!! c in
      red q = green q /\ green q = blue q /\ 0 <= red q <= 255) /\
    process_3 g' = Some g'.
Proof.
  intros Hwf Hch. unfold process_3.
  assert (Hgray : forall r c, (r < length g)%nat -> (c < length (g !!! 0%nat))%nat ->
    exists v, gray_pixel ((g !!! r) !!! c) = mkPixel v v v /\ 0 <= v <= 255).
  { intros r c Hr Hc.
    assert (Hp : channel_range ((g !!! r) !!! c)).
    { apply (Forall_lookup_total_1 _ _ c); [apply (Forall_lookup_total_1 _ _ r Hch); lia|].
      rewrite (proj2 (proj1 (proj2 Hwf)) r) by done. done. }
    destruct ((g !!! r) !!! c) as [pr pg pb]. destruct Hp as (Hr' & Hg' & Hb'). simpl in *.
    unfold gray_pixel, channel_sum. simpl.
    rewrite (wrap32_id (pr + pg)), (wrap32_id (pr + pg + pb)) by int_lia.
    rewrite Z.quot_div_nonneg by lia. unfold trunc_plus_half.
    destruct (Z.leb_spec 0 ((pr + pg + pb) / 3)) as [H0|H0];
      [|pose proof (Z.div_pos (pr + pg + pb) 3 ltac:(lia) ltac:(lia)); lia].
    eexists; split; [reflexivity|]. split; [done|].
    apply Z.div_le_upper_bound; lia. }
  destruct (pixelwise_idem gray_pixel g Hwf) as (g' & Hg' & Hs & Hv & Hi).
  { intros r c Hr Hc. destruct (Hgray r c Hr Hc) as (v & -> & Hv).
    unfold gray_pixel, channel_sum. simpl.
    rewrite (wrap32_id (v + v)), (wrap32_id (v + v + v)) by int_lia.
    replace (v + v + v) with (v * 3) by lia. rewrite Z.quot_mul by lia.
    unfold trunc_plus_half. destruct (Z.leb_spec 0 v); [reflexivity|lia]. }
  exists g'. split; [done|]. split; [done|]. split; [|done].
  intros r c Hr Hc. simpl. rewrite Hv by done.
  destruct (Hgray r c Hr Hc) as (v & -> & Hv'). simpl. lia.
Qed.

Lemma grayscale_idempotent_witness :
  exists g', process_3 [[mkPixel 200 10 10; mkPixel 10 20 201]] = Some g' /\
    grid_shape g' 1 2 /\
    (forall r c, (r < 1)%nat -> (c < 2)%nat ->
      let q := (g' !!! r) !!! c in
      red q = green q /\ green q = blue q /\ 0 <= red q <= 255) /\
    process_3 g' = Some g'.
Proof.
  apply (grayscale_idempotent [[mkPixel 200 10 10; mkPixel 10 20 201]]).
  - unfold wf_grid, grid_shape. simpl.
    split; [discriminate|]. split; [split; [reflexivity|]|split; lia].
    intros i Hi. destruct i as [|i]; [reflexivity|lia].
  - repeat constructor; simpl; lia.
Defined.

(** *** Rotations *)

(** [process_4] on a non-empty rectangular image. *)
Lemma process_4_spec (g : grid) :
  wf_grid g ->
  exists g', process_4 g = Some g' /\
    grid_shape g' (length (g !!! 0%nat)) (length g) /\
    forall r c, (r < length g)%nat -> (c < length (g !!! 0%nat))%nat ->
      (g' !!! c) !!! (length g - 1 - r)%nat = (g !!! r) !!! c.
Proof.
  intros (Hne & Hsh & HH & HW). unfold process_4.
  set (H := length g) in *. set (W := length (g !!! 0%nat)) in *.
  assert (H1 : (1 <= H)%nat) by (destruct g; [done|simpl in *; lia]).
  rewrite !wrap32_id by lia. rewrite new_vector_nat; simpl; rewrite new_vector_nat; simpl.
  eexists; split; [reflexivity|].
  set (P := fun (k : nat) (img : grid) => grid_shape img W H /\
    forall r c, (r < k)%nat -> (c < W)%nat -> (img !!! c) !!! (H - 1 - r)%nat = (g !!! r) !!! c).
  enough (Hend : P (Z.to_nat (Z.of_nat H)) (loop (Z.of_nat H) (fun row img =>
      loop (Z.of_nat W) (fun col img =>
        set2 img col (wrap32 (Z.of_nat H - 1 - row)) (get2 g row col)) img)
      (replicate W (replicate H default_pixel)))).
  { rewrite Nat2Z.id in Hend. destruct Hend as [Hs Hv]. split; [done|].
    intros r c Hr Hc. apply Hv; lia. }
  apply loop_ind.
  - split; [apply replicate_shape|]. intros; lia.
  - intros k acc Hk [Hs Hv]. rewrite Nat2Z.id in Hk.
    assert (Ht : wrap32 (Z.of_nat H - 1 - Z.of_nat k) = Z.of_nat (H - 1 - k)).
    { rewrite wrap32_id by lia. lia. }
    rewrite Ht.
    set (Q := fun (k' : nat) (img : grid) => grid_shape img W H /\
      forall r c, (r < k \/ (r = k /\ c < k'))%nat -> (c < W)%nat ->
        (img !!! c) !!! (H - 1 - r)%nat = (g !!! r) !!! c).
    enough (HQ : Q (Z.to_nat (Z.of_nat W)) (loop (Z.of_nat W) (fun col img =>
          set2 img col (Z.of_nat (H - 1 - k)) (get2 g (Z.of_nat k) col)) acc)).
    { rewrite Nat2Z.id in HQ. destruct HQ as [Hs' Hv']. split; [done|].
      intros r c Hr Hc. apply Hv'; lia. }
    apply loop_ind.
    + split; [done|]. intros r c [Hr|Hr] Hc; [by apply Hv|lia].
    + intros k' acc' Hk' [Hs' Hv']. rewrite Nat2Z.id in Hk'. split.
      * by apply set2_shape.
      * intros r c Hr Hc. rewrite (set2_lookup _ W H) by (done || lia).
        rewrite !Nat2Z.id. case_decide as Hd.
        -- destruct Hd as [-> Hrk]. assert (r = k) as -> by lia.
           unfold get2. by rewrite !Nat2Z.id.
        -- apply Hv'; [|done]. assert (c <> k' \/ r <> k) by lia. lia.
Qed.

(** The rotated image is again non-empty and rectangular. *)
Lemma process_4_wf (g : grid) :
  wf_grid g -> g !!! 0%nat <> [] ->
  exists g', process_4 g = Some g' /\ wf_grid g' /\ g' !!! 0%nat <> [] /\
    length g' = length (g !!! 0%nat) /\ length (g' !!! 0%nat) = length g /\
    forall r c, (r < length g)%nat -> (c < length (g !!! 0%nat))%nat ->
      (g' !!! c) !!! (length g - 1 - r)%nat = (g !!! r) !!! c.
Proof.
  intros Hwf Hne0. pose proof Hwf as (Hne & Hsh & HH & HW).
  destruct (process_4_spec g Hwf) as (g' & Hg' & [Hl Hr] & Hv).
  assert (H1 : (0 < length g)%nat) by (destruct g; [done|simpl; lia]).
  assert (W1 : (0 < length (g !!! 0%nat))%nat) by (destruct (g !!! 0%nat); [done|simpl; lia]).
  assert (Hr0 : length (g' !!! 0%nat) = length g) by (apply Hr; lia).
  exists g'. split; [done|]. split.
  { split; [intros ->; simpl in Hl; lia|]. rewrite Hl, Hr0. split; [by split|]. lia. }
  split; [intros E; rewrite E in Hr0; simpl in Hr0; lia|].
  split; [done|]. split; [done|]. done.
Qed.

(** X8: on a non-empty rectangular image of height [H] and width [W >= 1],
    rotating by two quarter turns ([process_5] with [number = 2]) returns an
    image of height [H] and width [W] whose pixel at [(H-1-r, W-1-c)] is the
    input pixel at [(r, c)]: a rotation by 180 degrees. *)
Theorem rotate180_index_map (g : grid) :
  wf_grid g -> g !!! 0%nat <> [] ->
  exists g', process_5 g 2 = Some g' /\
    grid_shape g' (length g) (length (g !!! 0%nat)) /\
    forall r c, (r < length g)%nat -> (c < length (g !!! 0%nat))%nat ->
      (g' !!! (length g - 1 - r)%nat) !!! (length (g !!! 0%nat) - 1 - c)%nat =
        (g !!! r) !!! c.
Proof.
  intros Hwf Hne0.
  destruct (process_4_wf g Hwf Hne0) as (g1 & E1 & Hwf1 & Hne1 & L1 & R1 & V1).
  destruct (process_4_wf g1 Hwf1 Hne1) as (g2 & E2 & Hwf2 & _ & L2 & R2 & V2).
  exists g2. split.
  { unfold process_5. change (wrap32 (2 * 90)) with 180. cbn -[process_4].
    rewrite E1. exact E2. }
  rewrite L1, R1 in *. split.
  - destruct Hwf2 as (_ & Hs2 & _). by rewrite L2, R2 in Hs2.
  - intros r c Hr Hc. rewrite V2 by lia. by apply V1.
Qed.

Lemma rotate180_index_map_witness :
  exists g', process_5 [[mkPixel 1 0 0; mkPixel 2 0 0]; [mkPixel 3 0 0; mkPixel 4 0 0]] 2 = Some g' /\
    grid_shape g' 2 2 /\
    forall r c, (r < 2)%nat -> (c < 2)%nat ->
      (g' !!! (2 - 1 - r)%nat) !!! (2 - 1 - c)%nat =
        ([[mkPixel 1 0 0; mkPixel 2 0 0]; [mkPixel 3 0 0; mkPixel 4 0 0]] !!! r) !!! c.
Proof.
  apply (rotate180_index_map [[mkPixel 1 0 0; mkPixel 2 0 0]; [mkPixel 3 0 0; mkPixel 4 0 0]]).
  - unfold wf_grid, grid_shape. simpl.
    split; [discriminate|]. split; [split; [reflexivity|]|split; lia].
    intros i Hi. destruct i as [|[|i]]; [reflexivity|reflexivity|lia].
  - discriminate.
Defined.

(** X9: on a non-empty rectangular image with at least one column, four
    quarter turns by [process_4] give the image back. *)
Theorem rotate_four_identity (g : grid) :
  wf_grid g -> g !!! 0%nat <> [] -> rotate_iter 4 g = Some g.
Proof.
  intros Hwf Hne0. pose proof Hwf as (_ & Hsh & _).
  destruct (process_4_wf g Hwf Hne0) as (g1 & E1 & Hwf1 & Hne1 & L1 & R1 & V1).
  destruct (process_4_wf g1 Hwf1 Hne1) as (g2 & E2 & Hwf2 & Hne2 & L2 & R2 & V2).
  destruct (process_4_wf g2 Hwf2 Hne2) as (g3 & E3 & Hwf3 & Hne3 & L3 & R3 & V3).
  destruct (process_4_wf g3 Hwf3 Hne3) as (g4 & E4 & Hwf4 & _ & L4 & R4 & V4).
  unfold rotate_iter. simpl. rewrite E1. simpl. rewrite E2. simpl. rewrite E3. simpl.
  rewrite E4. f_equal.
  rewrite L1, R1 in *. rewrite L2, R2 in *. rewrite L3, R3 in *.
  set (H := length g) in *. set (W := length (g !!! 0%nat)) in *.
  destruct Hwf4 as (_ & Hs4 & _). rewrite L4, R4 in Hs4.
  apply (grid_eq _ _ H W Hs4 Hsh). intros r c Hr Hc.
  assert (E : (g4 !!! r) !!! c = (g4 !!! r) !!! (W - 1 - (W - 1 - c))%nat)
    by (f_equal; lia).
  rewrite E, V4 by lia.
  assert (E' : (g3 !!! (W - 1 - c)%nat) !!! r = (g3 !!! (W - 1 - c)%nat) !!! (H - 1 - (H - 1 - r))%nat)
    by (f_equal; lia).
  rewrite E', V3 by lia. rewrite V2 by lia. by apply V1.
Qed.

Lemma rotate_four_identity_witness :
  rotate_iter 4 [[mkPixel 1 0 0; mkPixel 2 0 0; mkPixel 3 0 0]] =
    Some [[mkPixel 1 0 0; mkPixel 2 0 0; mkPixel 3 0 0]].
Proof.
  apply rotate_four_identity.
  - unfold wf_grid, grid_shape. simpl.
    split; [discriminate|]. split; [split; [reflexivity|]|split; lia].
    intros i Hi. destruct i as [|i]; [reflexivity|lia].
  - discriminate.
Defined.

(** X10: when [number * 90] fits in an [int], [process_5] applies
    [process_4] [number mod 4] times for [number >= 0]; for [number < 0] it
    leaves the image unchanged when [number] is a multiple of 4 and applies
    [process_4] three times otherwise. *)
Theorem rotate_quarter_turns (g : grid) (number : Z) :
  - 2 ^ 31 <= number * 90 < 2 ^ 31 ->
  process_5 g number =
    rotate_iter (Z.to_nat (if number <? 0 then if Z.rem number 4 =? 0 then 0 else 3
                           else number mod 4)) g.
Proof.
  intros Hn. unfold process_5. rewrite wrap32_id by done.
  rewrite Z.rem_mul by lia. cbn [negb Z.eqb].
  assert (E : Z.rem (number * 90) 360 = Z.rem number 4 * 90).
  { change 360 with (4 * 90). apply Z.mul_rem_distr_r; lia. }
  rewrite E. pose proof (Z.rem_bound_abs number 4 ltac:(lia)) as Hb.
  destruct (Z.ltb_spec number 0) as [Hneg|Hpos].
  - pose proof (Z.rem_nonpos number 4 ltac:(lia) ltac:(lia)) as Hq.
    assert (Hc : Z.rem number 4 = 0 \/ Z.rem number 4 = -1 \/
                 Z.rem number 4 = -2 \/ Z.rem number 4 = -3) by lia.
    destruct Hc as [-> | [-> | [-> | ->]]]; cbv -[process_4]; try reflexivity;
      destruct (process_4 g); reflexivity.
  - rewrite <- Z.rem_mod_nonneg by lia.
    pose proof (Z.rem_nonneg number 4 ltac:(lia) Hpos) as Hq.
    assert (Hc : Z.rem number 4 = 0 \/ Z.rem number 4 = 1 \/
                 Z.rem number 4 = 2 \/ Z.rem number 4 = 3) by lia.
    destruct Hc as [-> | [-> | [-> | ->]]]; cbv -[process_4]; try reflexivity;
      destruct (process_4 g); reflexivity.
Qed.

Lemma rotate_quarter_turns_witness :
  process_5 [[mkPixel 1 0 0; mkPixel 2 0 0]] (-1) =
    rotate_iter (Z.to_nat (if -1 <? 0 then if Z.rem (-1) 4 =? 0 then 0 else 3
                           else (-1) mod 4)) [[mkPixel 1 0 0; mkPixel 2 0 0]].
Proof. apply rotate_quarter_turns. lia. Defined.

(** *** Enlargement by a zero or negative factor *)

Lemma new_vector_nonneg {A} (n : Z) (x : A) :
  0 <= n -> new_vector n x = Some (replicate (Z.to_nat n) x).
Proof. intros Hn. unfold new_vector. destruct (Z.ltb_spec n 0); [lia|done]. Qed.

Lemma new_vector_neg {A} (n : Z) (x : A) : n < 0 -> new_vector n x = None.
Proof. intros Hn. unfold new_vector. destruct (Z.ltb_spec n 0); [done|lia]. Qed.




(** X12: on a non-empty rectangular image with at least one column, a
    negative scale factor (with the new dimensions in the range of [int])
    makes the allocation of the new image throw [length_error]. *)
Theorem enlarge_negative_scale (g : grid) (x_scale y_scale : Z) :
  wf_grid g -> g !!! 0%nat <> [] -> x_scale < 0 \/ y_scale < 0 ->
  - 2 ^ 31 <= Z.of_nat (length g) * y_scale < 2 ^ 31 ->
  - 2 ^ 31 <= Z.of_nat (length (g !!! 0%nat)) * x_scale < 2 ^ 31 ->
  process_6 g x_scale y_scale = None.
Proof.
  intros (Hne & _ & HH & HW) Hne0 Hneg HHy HWx. unfold process_6.
  assert (H1 : 1 <= Z.of_nat (length g)) by (destruct g; [done|simpl; lia]).
  assert (W1 : 1 <= Z.of_nat (length (g !!! 0%nat)))
    by (destruct (g !!! 0%nat); [done|simpl; lia]).
  rewrite (wrap32_id (Z.of_nat (length g))), (wrap32_id (Z.of_nat (length (g !!! 0%nat)))) by lia.
  rewrite (wrap32_id (Z.of_nat (length g) * y_scale)) by done.
  rewrite (wrap32_id (Z.of_nat (length (g !!! 0%nat)) * x_scale)) by done.
  destruct (Z.ltb_spec x_scale 0) as [Hx|Hx].
  - rewrite new_vector_neg by nia. reflexivity.
  - rewrite new_vector_nonneg by nia. rewrite bind_Some.
    rewrite new_vector_neg by nia. reflexivity.
Qed.

Lemma enlarge_negative_scale_witness :
  process_6 [[mkPixel 1 0 0; mkPixel 2 0 0]] 2 (-1) = None.
Proof.
  apply enlarge_negative_scale.
  - unfold wf_grid, grid_shape. simpl.
    split; [discriminate|]. split; [split; [reflexivity|]|split; lia].
    intros i Hi. destruct i as [|i]; [reflexivity|lia].
  - discriminate.
  - lia.
  - simpl. lia.
  - simpl. lia.
Defined.

(** *** Transforms with a [double] scaling factor *)

(** The nested loops of [pixelwise_opt]: a defined result holds in every
    cell the defined value of the body there, and the result is defined
    when the body is defined everywhere. *)
Lemma fill_loop_opt (h w : nat) (f : Z -> Z -> option Pixel) (img0 : grid) :
  grid_shape img0 h w ->
  let o := loop (Z.of_nat h) (fun row oimg =>
             loop (Z.of_nat w) (fun col oimg =>
               img ← oimg; p ← f row col; Some (set2 img row col p)) oimg) (Some img0) in
  (forall img, o = Some img -> grid_shape img h w /\
     forall r c, (r < h)%nat -> (c < w)%nat ->
       f (Z.of_nat r) (Z.of_nat c) = Some ((img !!! r) !!! c)) /\
  ((forall r c, (r < h)%nat -> (c < w)%nat -> exists p, f (Z.of_nat r) (Z.of_nat c) = Some p) ->
   exists img, o = Some img).
Proof.
  intros Hsh0 o. split.
  - set (P := fun (k : nat) (o : option grid) => forall img, o = Some img ->
      grid_shape img h w /\ forall r c, (r < k)%nat -> (c < w)%nat ->
        f (Z.of_nat r) (Z.of_nat c) = Some ((img !!! r) !!! c)).
    enough (Hend : P (Z.to_nat (Z.of_nat h)) o).
    { rewrite Nat2Z.id in Hend. exact Hend. }
    apply loop_ind.
    + intros img [= <-]. split; [done|]. intros; lia.
    + intros k acc Hk HP. rewrite Nat2Z.id in Hk.
      set (Q := fun (k' : nat) (o : option grid) => forall img, o = Some img ->
        grid_shape img h w /\ forall r c, (r < k \/ (r = k /\ c < k'))%nat -> (c < w)%nat ->
          f (Z.of_nat r) (Z.of_nat c) = Some ((img !!! r) !!! c)).
      enough (HQ : Q (Z.to_nat (Z.of_nat w)) (loop (Z.of_nat w) (fun col oimg =>
          img ← oimg; p ← f (Z.of_nat k) col; Some (set2 img (Z.of_nat k) col p)) acc)).
      { rewrite Nat2Z.id in HQ. intros img E. destruct (HQ img E) as [Hs Hv].
        split; [done|]. intros r c Hr Hc. apply Hv; [lia|done]. }
      apply loop_ind.
      * intros img E. destruct (HP img E) as [Hs Hv]. split; [done|].
        intros r c [Hr|Hr] Hc; [by apply Hv|lia].
      * intros k' acc' Hk' HQ img E. rewrite Nat2Z.id in Hk'.
        destruct acc' as [img1|]; [|discriminate]. rewrite bind_Some in E.
        destruct (f (Z.of_nat k) (Z.of_nat k')) as [p|] eqn:Ef; [|discriminate].
        rewrite bind_Some in E. injection E as <-.
        destruct (HQ img1 eq_refl) as [Hs Hv]. split; [by apply set2_shape|].
        intros r c Hr Hc. rewrite (set2_lookup _ h w) by (done || lia).
        rewrite !Nat2Z.id. case_decide as Hd.
        -- by destruct Hd as [-> ->].
        -- apply Hv; [|done]. lia.
  - intros Hall.
    set (P := fun (_ : nat) (o : option grid) => exists img, o = Some img).
    enough (Hend : P (Z.to_nat (Z.of_nat h)) o) by exact Hend.
    apply loop_ind; [by exists img0|].
    intros k acc Hk HP. rewrite Nat2Z.id in Hk.
    set (Q := fun (_ : nat) (o : option grid) => exists img, o = Some img).
    enough (HQ : Q (Z.to_nat (Z.of_nat w)) (loop (Z.of_nat w) (fun col oimg =>
        img ← oimg; p ← f (Z.of_nat k) col; Some (set2 img (Z.of_nat k) col p)) acc))
      by exact HQ.
    apply loop_ind; [exact HP|].
    intros k' acc' Hk' [img1 ->]. rewrite Nat2Z.id in Hk'.
    destruct (Hall k k' Hk Hk') as [p Hp]. rewrite bind_Some, Hp, bind_Some.
    unfold Q. eauto.
Qed.

Lemma pixelwise_opt_inv (f : Pixel -> option Pixel) (g g' : grid) :
  wf_grid g -> pixelwise_opt f g = Some g' ->
  grid_shape g' (length g) (length (g !!! 0%nat)) /\
  forall r c, (r < length g)%nat -> (c < length (g !!! 0%nat))%nat ->
    f ((g !!! r) !!! c) = Some ((g' !!! r) !!! c).
Proof.
  intros (_ & Hsh & HH & HW) E. unfold pixelwise_opt in E.
  rewrite !wrap32_id in E by lia.
  rewrite new_vector_nat, bind_Some, new_vector_nat, bind_Some in E.
  destruct (fill_loop_opt (length g) (length (g !!! 0%nat)) (fun row col => f (get2 g row col))
              _ (replicate_shape _ _ default_pixel)) as [Hinv _].
  destruct (Hinv g' E) as [Hs Hv]. split; [done|].
  intros r c Hr Hc. rewrite <- Hv by done. unfold get2. by rewrite !Nat2Z.id.
Qed.

Lemma pixelwise_opt_map (f : Pixel -> option Pixel) (g : grid) (v : nat -> nat -> Pixel) :
  wf_grid g ->
  (forall r c, (r < length g)%nat -> (c < length (g !!! 0%nat))%nat ->
     f ((g !!! r) !!! c) = Some (v r c)) ->
  exists g', pixelwise_opt f g = Some g' /\ grid_shape g' (length g) (length (g !!! 0%nat)) /\
    forall r c, (r < length g)%nat -> (c < length (g !!! 0%nat))%nat -> (g' !!! r) !!! c = v r c.
Proof.
  intros Hwf Hf. pose proof Hwf as (_ & Hsh & HH & HW).
  assert (Hsome : exists g', pixelwise_opt f g = Some g').
  { unfold pixelwise_opt. rewrite !wrap32_id by lia.
    rewrite new_vector_nat, bind_Some, new_vector_nat, bind_Some.
    destruct (fill_loop_opt (length g) (length (g !!! 0%nat)) (fun row col => f (get2 g row col))
                _ (replicate_shape _ _ default_pixel)) as [_ Hex].
    apply Hex. intros r c Hr Hc. exists (v r c). unfold get2. rewrite !Nat2Z.id. by apply Hf. }
  destruct Hsome as [g' E]. exists g'. split; [done|].
  destruct (pixelwise_opt_inv f g g' Hwf E) as [Hs Hv]. split; [done|].
  intros r c Hr Hc. pose proof (Hv r c Hr Hc) as E1. rewrite Hf in E1 by done.
  by injection E1.
Qed.

(** The scaling factors 1 and 0 on every channel value in [0, 255],
    checked value by value in binary64 arithmetic. *)
Lemma channel_factors (c : Z) :
  0 <= c <= 255 ->
  darken_channel (int_to_double 1) c = Some c /\
  lighten_channel (int_to_double 1) c = Some c /\
  darken_channel (int_to_double 0) c = Some 0 /\
  lighten_channel (int_to_double 0) c = Some 255.
Proof.
  intros Hc.
  assert (Hall : forallb (fun n : nat => let c := Z.of_nat n in
      bool_decide (darken_channel (int_to_double 1) c = Some c) &&
      bool_decide (lighten_channel (int_to_double 1) c = Some c) &&
      bool_decide (darken_channel (int_to_double 0) c = Some 0) &&
      bool_decide (lighten_channel (int_to_double 0) c = Some 255)) (seq 0 256) = true)
    by (vm_compute; reflexivity).
  rewrite forallb_forall in Hall.
  specialize (Hall (Z.to_nat c) ltac:(apply in_seq; lia)).
  rewrite Z2Nat.id in Hall by lia.
  apply andb_prop in Hall as [Hall H4]. apply andb_prop in Hall as [Hall H3].
  apply andb_prop in Hall as [H1 H2].
  apply bool_decide_eq_true in H1, H2, H3, H4. tauto.
Qed.



(** X14: on a non-empty rectangular image with channels in [0, 255], the
    scaling factor 1 makes [process_2], [process_8] and [process_9] return
    the image unchanged, and the factor 0 makes [process_8] return an
    all-white and [process_9] an all-black image of the same size. *)
Theorem scaling_factor_one_zero (g : grid) :
  wf_grid g -> Forall (Forall channel_range) g ->
  process_2 g (int_to_double 1) = Some g /\
  process_8 g (int_to_double 1) = Some g /\
  process_9 g (int_to_double 1) = Some g /\
  process_8 g (int_to_double 0) =
    Some (replicate (length g) (replicate (length (g !!! 0%nat)) (mkPixel 255 255 255))) /\
  process_9 g (int_to_double 0) =
    Some (replicate (length g) (replicate (length (g !!! 0%nat)) (mkPixel 0 0 0))).
Proof.
  intros Hwf Hch. pose proof Hwf as (_ & Hsh & _).
  assert (Hp : forall r c, (r < length g)%nat -> (c < length (g !!! 0%nat))%nat ->
                 channel_range ((g !!! r) !!! c)).
  { intros r c Hr Hc. apply (Forall_lookup_total_1 _ _ c);
      [apply (Forall_lookup_total_1 _ _ r Hch); lia|].
    by rewrite (proj2 Hsh r). }
  assert (Hpix : forall p, channel_range p ->
    darken_pixel (int_to_double 1) p = Some p /\ lighten_pixel (int_to_double 1) p = Some p /\
    clarendon_pixel (int_to_double 1) p = Some p /\
    lighten_pixel (int_to_double 0) p = Some (mkPixel 255 255 255) /\
    darken_pixel (int_to_double 0) p = Some (mkPixel 0 0 0)).
  { intros [r g0 b] (Hr & Hg & Hb). simpl in *.
    destruct (channel_factors r Hr) as (R1 & R2 & R3 & R4).
    destruct (channel_factors g0 Hg) as (G1 & G2 & G3 & G4).
    destruct (channel_factors b Hb) as (B1 & B2 & B3 & B4).
    unfold clarendon_pixel, darken_pixel, lighten_pixel. simpl.
    rewrite R1, R2, R3, R4, G1, G2, G3, G4, B1, B2, B3, B4. simpl.
    split; [done|]. split; [done|]. split; [|done].
    destruct (170 <=? _); [done|]. destruct (_ <? 90); done. }
  assert (Hid : forall f, (forall p, channel_range p -> f p = Some p) ->
                pixelwise_opt f g = Some g).
  { intros f Hf. destruct (pixelwise_opt_map f g (fun r c => (g !!! r) !!! c) Hwf)
      as (g' & E & Hs & Hv); [intros r c Hr Hc; by apply Hf, Hp|].
    rewrite E. f_equal. by apply (grid_eq _ _ _ _ Hs Hsh). }
  assert (Hconst : forall f q, (forall p, channel_range p -> f p = Some q) ->
    pixelwise_opt f g = Some (replicate (length g) (replicate (length (g !!! 0%nat)) q))).
  { intros f q Hf. destruct (pixelwise_opt_map f g (fun _ _ => q) Hwf)
      as (g' & E & Hs & Hv); [intros r c Hr Hc; by apply Hf, Hp|].
    rewrite E. f_equal. apply (grid_eq _ _ _ _ Hs (replicate_shape _ _ _)).
    intros r c Hr Hc. rewrite Hv by done. by rewrite !lookup_total_replicate_2. }
  unfold process_2, process_8, process_9.
  split; [apply Hid; intros p Hq; apply (Hpix p Hq)|].
  split; [apply Hid; intros p Hq; apply (Hpix p Hq)|].
  split; [apply Hid; intros p Hq; apply (Hpix p Hq)|].
  split; apply Hconst; intros p Hq; apply (Hpix p Hq).
Qed.

Lemma scaling_factor_one_zero_witness :
  process_2 [[mkPixel 200 200 200; mkPixel 10 20 30]] (int_to_double 1) =
    Some [[mkPixel 200 200 200; mkPixel 10 20 30]] /\
  process_8 [[mkPixel 200 200 200; mkPixel 10 20 30]] (int_to_double 1) =
    Some [[mkPixel 200 200 200; mkPixel 10 20 30]] /\
  process_9 [[mkPixel 200 200 200; mkPixel 10 20 30]] (int_to_double 1) =
    Some [[mkPixel 200 200 200; mkPixel 10 20 30]] /\
  process_8 [[mkPixel 200 200 200; mkPixel 10 20 30]] (int_to_double 0) =
    Some (replicate 1 (replicate 2 (mkPixel 255 255 255))) /\
  process_9 [[mkPixel 200 200 200; mkPixel 10 20 30]] (int_to_double 0) =
    Some (replicate 1 (replicate 2 (mkPixel 0 0 0))).
Proof.
  apply (scaling_factor_one_zero [[mkPixel 200 200 200; mkPixel 10 20 30]]).
  - unfold wf_grid, grid_shape. simpl.
    split; [discriminate|]. split; [split; [reflexivity|]|split; lia].
    intros i Hi. destruct i as [|i]; [reflexivity|lia].
  - repeat constructor; simpl; lia.
Defined.
